(** * A shallow embedding of [docs/qe_apidoc.py]

    The script is Python 2 code ([map] returns a list and [list.sort] is
    called on it), so lists are Python 2 lists and strings are byte strings:
    [len] counts bytes, which is [String.length] on [Stdlib.Strings.String].

    Effects are made explicit: the scanned package tree [../quantecon] is
    read-only input (an [env]), the output tree under [source/] is a state
    ([fs]) threaded through a small state and error monad [M], and the
    failures of the operating system are a fixed fault oracle of the
    [env]. *)

From Stdlib Require Import Ascii.
From stdpp Require Import base gmap strings list sorting.

Open Scope stdpp_scope.

(** ** Strings as the script uses them *)

Definition nl_char : ascii := Ascii.ascii_of_nat 10.
Definition nl : string := String nl_char "".

(** Python's [s.split(c)] for a one-character separator [c]. *)
Fixpoint py_split (c : ascii) (s : string) : list string :=
  match s with
  | EmptyString => [""]
  | String d s' =>
      let r := py_split c s' in
      if Ascii.eqb d c then "" :: r
      else match r with
           | [] => [String d ""]
           | x :: r' => String d x :: r'
           end
  end.

(** Python's [sep.join(xs)]. *)
Definition py_join (sep : string) (xs : list string) : string :=
  String.concat sep xs.

(** Python's [s * n] for a string [s]. *)
Fixpoint str_repeat (s : string) (n : nat) : string :=
  match n with
  | O => ""
  | S k => s +:+ str_repeat s k
  end.

(** Python's [s[:-k]]. *)
Definition drop_end (k : nat) (s : string) : string :=
  String.substring 0 (String.length s - k) s.

(** Python's [xs[-1]] on the (never empty) result of [split]. *)
Definition py_last (xs : list string) : string := default "" (last xs).

(** Python's [xs[0]] on the (never empty) result of [split]. *)
Definition py_first (xs : list string) : string := hd "" xs.

Definition ascii_between (lo hi c : ascii) : bool :=
  (Ascii.nat_of_ascii lo <=? Ascii.nat_of_ascii c)%nat &&
  (Ascii.nat_of_ascii c <=? Ascii.nat_of_ascii hi)%nat.

Definition is_lower (c : ascii) : bool := ascii_between "a"%char "z"%char c.
Definition is_upper (c : ascii) : bool := ascii_between "A"%char "Z"%char c.

Definition to_upper (c : ascii) : ascii :=
  if is_upper c || negb (is_lower c) then c
  else Ascii.ascii_of_nat (Ascii.nat_of_ascii c - 32).

Definition to_lower (c : ascii) : ascii :=
  if is_upper c then Ascii.ascii_of_nat (Ascii.nat_of_ascii c + 32) else c.

Fixpoint str_map (f : ascii -> ascii) (s : string) : string :=
  match s with
  | EmptyString => EmptyString
  | String c s' => String (f c) (str_map f s')
  end.

(** Python 2's [str.capitalize] on ASCII text. *)
Definition capitalize (s : string) : string :=
  match s with
  | EmptyString => EmptyString
  | String c s' => String (to_upper c) (str_map to_lower s')
  end.

Definition ends_with (suf s : string) : bool :=
  let n := String.length s in
  let k := String.length suf in
  (k <=? n)%nat && String.eqb (String.substring (n - k) k s) suf.

(** [fnmatch] of a directory entry against [[a-z0-9]*.py]: the class eats
    the first character, [*] anything, then the literal suffix [.py]. *)
Definition glob_match (name : string) : bool :=
  match name with
  | EmptyString => false
  | String c rest =>
      (is_lower c || ascii_between "0"%char "9"%char c) && ends_with ".py" rest
  end.

(** [os.path.join] of relative components without separators of their own. *)
Definition os_path_join (parts : list string) : string := py_join "/" parts.

Definition source_join (f_name : string) : string :=
  os_path_join ["source"; f_name].

(** Python 2's [list.sort] on byte strings: the bytewise lexicographic
    order, which is [String.leb]; an insertion sort is stable and gives the
    same list. *)
Fixpoint insert_sorted (x : string) (xs : list string) : list string :=
  match xs with
  | [] => [x]
  | y :: ys => if String.leb x y then x :: y :: ys else y :: insert_sorted x ys
  end.

Fixpoint py_sort (xs : list string) : list string :=
  match xs with
  | [] => []
  | x :: xs' => insert_sorted x (py_sort xs')
  end.

(** ** String templates

    A triple-quoted template is its lines joined by newlines; the trailing
    empty line is the final newline of the literal. [.format] substitutes
    the named fields, so a template is a function of them. *)

Definition text (ls : list string) : string := py_join nl ls.

Definition automodule_text (pkg mod_name equals : string) : string :=
  text [mod_name; equals; "";
        ".. automodule:: " +:+ pkg +:+ mod_name;
        "    :members:"; "    :undoc-members:"; "    :show-inheritance:"; ""].

Definition module_template (mod_name equals : string) : string :=
  automodule_text "quantecon." mod_name equals.
Definition markov_module_template (mod_name equals : string) : string :=
  automodule_text "quantecon.markov." mod_name equals.
Definition model_module_template (mod_name equals : string) : string :=
  automodule_text "quantecon.models." mod_name equals.
Definition solow_model_module_template (mod_name equals : string) : string :=
  automodule_text "quantecon.models.solow." mod_name equals.
Definition random_module_template (mod_name equals : string) : string :=
  automodule_text "quantecon.random." mod_name equals.
Definition util_module_template (mod_name equals : string) : string :=
  automodule_text "quantecon.util." mod_name equals.

Definition all_index_template (generated : string) : string :=
  text ["======================="; "QuantEcon documentation";
        "======================="; "";
        "Auto-generated documentation by module:"; "";
        ".. toctree::"; "   :maxdepth: 2"; "";
        "   " +:+ generated; ""; "";
        "Indices and tables"; "=================="; "";
        "* :ref:`genindex`"; "* :ref:`modindex`"; "* :ref:`search`"; ""].

Definition split_index_template : string :=
  text ["======================="; "QuantEcon documentation";
        "======================="; "";
        "The `quantecon` python library is composed of two main section: models";
        "and tools. The models section contains implementations of standard";
        "models, many of which are discussed in lectures on the website `quant-";
        "econ.net <http://quant-econ.net>`_."; "";
        ".. toctree::"; "   :maxdepth: 2"; "";
        "   markov"; "   models"; "   random"; "   tools"; "";
        "Indices and tables"; "=================="; "";
        "* :ref:`genindex`"; "* :ref:`modindex`"; "* :ref:`search`"; ""].

Definition split_file_template (name equals files : string) : string :=
  text [name; equals; ""; ".. toctree::"; "   :maxdepth: 2"; "";
        "   " +:+ files; ""].

(** Observation, not part of the script: the entries of a [toctree]
    directive, i.e. the lines indented by three spaces that are not an
    option ([:maxdepth:]) or further indented. *)
Definition toc_entry (line : string) : option string :=
  match line with
  | String a (String b (String c (String d r))) =>
      if Ascii.eqb a " "%char && Ascii.eqb b " "%char && Ascii.eqb c " "%char
         && negb (Ascii.eqb d ":"%char) && negb (Ascii.eqb d " "%char)
      then Some (String d r) else None
  | _ => None
  end.

Definition toc_entries (doc : string) : list string :=
  omap toc_entry (py_split nl_char doc).

Example toc_entries_split_index :
  toc_entries split_index_template = ["markov"; "models"; "random"; "tools"].
Proof. reflexivity. Qed.

Example capitalize_util : capitalize "util" = "Util".
Proof. reflexivity. Qed.

Example glob_match_examples :
  glob_match "ergodicity.py" = true /\ glob_match "__init__.py" = false /\
  glob_match "a.py" = true /\ glob_match "a.pyc" = false.
Proof. repeat split; reflexivity. Qed.

(** ** The world: input tree, output tree, faults *)

(** Errors the script can raise: an I/O error ([IOError]/[OSError]) at a
    path, a [NameError] for an unbound global, a [KeyError] of a dict. *)
Inductive err :=
| IOError (path : string)
| NameError (name : string)
| KeyError (key : string).

(** What the script does to the file system, in order. *)
Inductive event :=
| EMkdir (path : string)
| EOpen (path : string)
| EWrite (path : string) (data : string)
| EClose (path : string)
| ERaise (e : err).

(** The read-only input: [listdir d] are the entries of directory [d] of the
    scanned tree in [os.listdir] order (empty for a missing directory), and
    the fault oracle says which [makedirs] and [open] fail and after how
    many bytes a [write] fails. *)
Record env := mkEnv {
  listdir : string -> list string;
  mkdir_fails : string -> bool;
  open_fails : string -> bool;
  write_fault : string -> option nat
}.

(** The output tree: directories, file contents, open handles (a handle is
    named by its path) and the event log. *)
Record fs := mkFS {
  dirs : gset string;
  files : gmap string string;
  handles : list string;
  log : list event
}.

Definition emit (ev : event) (s : fs) : fs :=
  mkFS (dirs s) (files s) (handles s) (log s ++ [ev]).

Inductive outcome (A : Type) :=
| Ok (a : A)
| Exn (e : err).
Arguments Ok {A} a.
Arguments Exn {A} e.

(** ** The state and error monad *)

Definition M (A : Type) : Type := env -> fs -> outcome A * fs.

Definition ret {A} (a : A) : M A := fun _ s => (Ok a, s).

Definition bind {A B} (m : M A) (k : A -> M B) : M B :=
  fun E s =>
    match m E s with
    | (Ok a, s1) => k a E s1
    | (Exn e, s1) => (Exn e, s1)
    end.

Notation "x <- m ;; k" := (bind m (fun x => k))
  (at level 100, m at next level, right associativity).
Notation "m ;;; k" := (bind m (fun _ => k))
  (at level 100, right associativity).

Definition raise {A} (e : err) : M A := fun _ s => (Exn e, emit (ERaise e) s).

(** A [for] loop over a list. *)
Fixpoint for_each {A} (xs : list A) (body : A -> M unit) : M unit :=
  match xs with
  | [] => ret tt
  | x :: xs' => body x ;;; for_each xs' body
  end.

(** [glob(dir + "/[a-z0-9]*.py")]: the matching entries of [dir], prefixed
    with [dir/], in directory order (Python 2's glob does not sort). *)
Definition glob_result (E : env) (dir : string) : list string :=
  map (fun n => dir +:+ "/" +:+ n) (filter glob_match (listdir E dir)).

Definition glob (dir : string) : M (list string) :=
  fun E s => (Ok (glob_result E dir), s).

Definition path_exists (p : string) : M bool :=
  fun _ s => (Ok (bool_decide (p ∈ dirs s) || bool_decide (is_Some (files s !! p))), s).

(** The directories [os.makedirs p] creates: [p] and its ancestors. The log
    records the call ([EMkdir p]); the directory set records every
    directory it creates. *)
Definition ancestors (p : string) : list string :=
  let parts := py_split "/"%char p in
  map (fun i => py_join "/" (take i parts)) (seq 1 (length parts)).

Definition makedirs (p : string) : M unit :=
  fun E s =>
    if bool_decide (p ∈ dirs s) || mkdir_fails E p then raise (IOError p) E s
    else (Ok tt, emit (EMkdir p)
                   (mkFS (list_to_set (ancestors p) ∪ dirs s) (files s) (handles s) (log s))).

(** [open(p, "w")]: create or truncate [p] and hand out a handle. *)
Definition open_w (p : string) : M string :=
  fun E s =>
    if open_fails E p then raise (IOError p) E s
    else (Ok p, emit (EOpen p) (mkFS (dirs s) (<[p := ""]> (files s)) (p :: handles s) (log s))).

Definition append_file (h data : string) (s : fs) : fs :=
  emit (EWrite h data)
    (mkFS (dirs s) (<[h := default "" (files s !! h) +:+ data]> (files s)) (handles s) (log s)).

(** [f.write(data)]: appends; a faulty write stores a prefix and raises. *)
Definition write (h data : string) : M unit :=
  fun E s =>
    match write_fault E h with
    | None => (Ok tt, append_file h data s)
    | Some n => raise (IOError h) E (append_file h (String.substring 0 n data) s)
    end.

Fixpoint remove_handle (h : string) (hs : list string) : list string :=
  match hs with
  | [] => []
  | h' :: hs' => if String.eqb h h' then hs' else h' :: remove_handle h hs'
  end.

Definition close (h : string) (s : fs) : fs :=
  emit (EClose h) (mkFS (dirs s) (files s) (remove_handle h (handles s)) (log s)).

(** [with open(p, "w") as f: body(f)]: the handle is closed when the body
    returns and when it raises; the exception is not caught. *)
Definition with_open {A} (p : string) (body : string -> M A) : M A :=
  h <- open_w p ;;
  fun E s => let '(r, s1) := body h E s in (r, close h s1).

(** A dict literal read with [d[k]]. *)
Fixpoint dict_get (d : list (string * string)) (k : string) : M string :=
  match d with
  | [] => raise (KeyError k)
  | (k', v) :: d' => if String.eqb k k' then ret v else dict_get d' k
  end.

(** ** The script *)

(** [if not os.path.exists(source_join(folder)): os.makedirs(source_join(folder))] *)
Definition ensure_dir (folder : string) : M unit :=
  ex <- path_exists (source_join folder) ;;
  if ex then ret tt else makedirs (source_join folder).

Definition all_auto : M unit :=
  mod_names0 <- glob "../quantecon" ;;
  let mod_names := map (fun x => py_last (py_split "/"%char x)) mod_names0 in
  ensure_dir "modules" ;;;
  for_each mod_names (fun mod' =>
    let name := py_first (py_split "."%char mod') in
    let new_path := os_path_join ["source"; "modules"; name +:+ ".rst"] in
    with_open new_path (fun f =>
      (* gen_module(name, f): the name gen_module is bound nowhere *)
      raise (NameError "gen_module"))) ;;;
  with_open (source_join "index.rst") (fun index =>
    let generated :=
      py_join (nl +:+ "   ")
        (map (fun x => "modules/" +:+ py_first (py_split "."%char x)) mod_names) in
    let temp := all_index_template generated in
    write index temp).

(** [map(lambda x: x.split('/')[-1][:-3], files)] *)
Definition strip_names (fs0 : list string) : list string :=
  map (fun x => drop_end 3 (py_last (py_split "/"%char x))) fs0.

(** One of the six "Write file for each ..." loops. *)
Definition write_modules (folder : list string)
    (template : string -> string -> string) (mods : list string) : M unit :=
  for_each mods (fun mod' =>
    let new_path := os_path_join (["source"] ++ folder ++ [mod' +:+ ".rst"]) in
    with_open new_path (fun f =>
      let equals := str_repeat "=" (String.length mod') in
      write f (template mod' equals))).

Definition toc_list (prefix : string) (mods : list string) : string :=
  prefix +:+ py_join (nl +:+ "   " +:+ prefix) mods.

Definition model_tool : M unit :=
  markov_files <- glob "../quantecon/markov" ;;
  let markov := py_sort (strip_names markov_files) in
  mod_files <- glob "../quantecon/models" ;;
  let models := py_sort (strip_names mod_files) in
  solow_files <- glob "../quantecon/models/solow" ;;
  let solow := py_sort (strip_names solow_files) in
  random_files <- glob "../quantecon/random" ;;
  let random := py_sort (strip_names random_files) in
  tool_files <- glob "../quantecon" ;;
  let tools := py_sort (strip_names tool_files) in
  util_files <- glob "../quantecon/util" ;;
  let util := py_sort (strip_names util_files) in
  for_each ["markov"; "models"; "models/solow"; "random"; "tools"; "util"] ensure_dir ;;;
  write_modules ["markov"] markov_module_template markov ;;;
  write_modules ["models"] model_module_template models ;;;
  write_modules ["models"; "solow"] solow_model_module_template solow ;;;
  write_modules ["random"] random_module_template random ;;;
  write_modules ["tools"] module_template tools ;;;
  write_modules ["util"] util_module_template util ;;;
  with_open (source_join "index.rst") (fun index => write index split_index_template) ;;;
  let mark := toc_list "markov/" markov in
  let mods := toc_list "models/" models +:+ nl +:+ "   solow/" in
  let rand := toc_list "random/" random in
  let tlz := toc_list "tools/" tools in
  let utls := toc_list "util/" util in
  let toc_tree_list := [("markov", mark); ("models", mods); ("tools", tlz);
                        ("random", rand); ("util", utls)] in
  for_each ["markov"; "models"; "random"; "tools"; "util"] (fun f_name =>
    with_open (source_join (f_name +:+ ".rst")) (fun f =>
      files <- dict_get toc_tree_list f_name ;;
      let temp := split_file_template (capitalize f_name)
                    (str_repeat "=" (String.length f_name)) files in
      write f temp)).

(** [if "single" in sys.argv[1:]: all_auto() else: model_tool()] *)
Definition main (argv : list string) : M unit :=
  if existsb (String.eqb "single") (skipn 1 argv) then all_auto else model_tool.

(** The paths a log opens, in order. *)
Definition opened (l : list event) : list string :=
  omap (fun ev => match ev with EOpen p => Some p | _ => None end) l.

(** ** Concrete worlds *)

Definition no_faults (E : env) : Prop :=
  (forall p, mkdir_fails E p = false) /\ (forall p, open_fails E p = false) /\
  (forall p, write_fault E p = None).

Definition fs0 : fs := mkFS ∅ ∅ [] [].

Definition clean_env (tree : list (string * list string)) : env :=
  mkEnv (fun d => default [] (snd <$> head (filter (fun '(d', _) => String.eqb d d') tree)))
    (fun _ => false) (fun _ => false) (fun _ => None).

(** The six per-module templates of the script. *)
Definition module_templates : list (string -> string -> string) :=
  [module_template; markov_module_template; model_module_template;
   solow_model_module_template; random_module_template; util_module_template].

Fixpoint has_char (c : ascii) (s : string) : bool :=
  match s with
  | EmptyString => false
  | String d s' => Ascii.eqb d c || has_char c s'
  end.

(** ** Lemmas on strings *)

Lemma py_split_not_nil c s : py_split c s <> [].
Proof.
  induction s as [|d s IH]; simpl; [done|].
  destruct (Ascii.eqb d c); [done|].
  destruct (py_split c s); done.
Qed.

Lemma py_split_no_char c s : has_char c s = false -> py_split c s = [s].
Proof.
  induction s as [|d s IH]; simpl; [done|].
  intros H. apply orb_false_iff in H as [Hd Hs].
  rewrite Hd, IH by done. done.
Qed.

Lemma append_nil_l (b : string) : "" +:+ b = b.
Proof. reflexivity. Qed.

Lemma append_cons (d : ascii) (a b : string) : String d a +:+ b = String d (a +:+ b).
Proof. reflexivity. Qed.

Lemma py_split_sep_app c a b :
  py_split c (a +:+ String c b) = py_split c a ++ py_split c b.
Proof.
  induction a as [|d a IH].
  - rewrite append_nil_l. simpl. rewrite Ascii.eqb_refl. done.
  - rewrite append_cons. simpl. rewrite IH. destruct (Ascii.eqb d c); [done|].
    pose proof (py_split_not_nil c a) as Hn.
    destruct (py_split c a); done.
Qed.

Lemma append_assoc (a b c : string) : (a +:+ b) +:+ c = a +:+ (b +:+ c).
Proof.
  induction a as [|d a IH]; [done|]. rewrite !append_cons. by rewrite IH.
Qed.

Lemma append_empty_r (a : string) : a +:+ "" = a.
Proof. induction a as [|d a IH]; [done|]. rewrite append_cons. by rewrite IH. Qed.

Lemma length_append (a b : string) :
  String.length (a +:+ b) = (String.length a + String.length b)%nat.
Proof. induction a as [|d a IH]; [done|]. rewrite append_cons. simpl. by rewrite IH. Qed.

Lemma py_join_cons2 (c : ascii) x y r :
  py_join (String c "") (x :: y :: r) = x +:+ String c (py_join (String c "") (y :: r)).
Proof. done. Qed.

(** [s.split(c)] undoes [c.join(ls)] when no piece contains [c]. *)
Lemma py_split_join c ls :
  ls <> [] -> Forall (fun l => has_char c l = false) ls ->
  py_split c (py_join (String c "") ls) = ls.
Proof.
  induction ls as [|x [|y r] IH]; intros Hne Hf; [done| |].
  - inversion Hf; subst. simpl. by apply py_split_no_char.
  - inversion Hf; subst.
    rewrite py_join_cons2, py_split_sep_app, py_split_no_char by done.
    rewrite IH; done.
Qed.

Lemma str_repeat_length s n :
  String.length (str_repeat s n) = (n * String.length s)%nat.
Proof. induction n as [|n IH]; simpl; [done|]. rewrite length_append, IH. lia. Qed.

Lemma has_char_append c a b : has_char c (a +:+ b) = has_char c a || has_char c b.
Proof.
  induction a as [|d a IH]; [done|]. rewrite append_cons. simpl. by rewrite IH, orb_assoc.
Qed.

Lemma has_char_repeat c s n : has_char c s = false -> has_char c (str_repeat s n) = false.
Proof. intros H. induction n as [|n IH]; simpl; [done|]. by rewrite has_char_append, H, IH. Qed.

Lemma eqs_no_nl n : has_char nl_char (str_repeat "=" n) = false.
Proof. apply has_char_repeat. done. Qed.

Lemma automodule_lines pkg m e :
  has_char nl_char m = false -> has_char nl_char e = false ->
  has_char nl_char pkg = false ->
  py_split nl_char (automodule_text pkg m e) =
    [m; e; ""; ".. automodule:: " +:+ pkg +:+ m;
     "    :members:"; "    :undoc-members:"; "    :show-inheritance:"; ""].
Proof.
  intros Hm He Hp. unfold automodule_text, text.
  apply py_split_join; [done|].
  repeat constructor; try done.
  rewrite !has_char_append, Hp, Hm. done.
Qed.

(** ** Per-module documents (claim C1) *)

(** C1. For every per-module template of the script and every module name
    [m] (a file name, so without a newline), the document rendered with
    [equals = "=" * len(m)] is [m], a newline, then the underline, and its
    second line is the underline, whose length is exactly [len(m)]. *)
Theorem module_doc_underline (tmpl : string -> string -> string) (m : string) :
  In tmpl module_templates ->
  has_char nl_char m = false ->
  let doc := tmpl m (str_repeat "=" (String.length m)) in
  py_split nl_char doc !! 1 = Some (str_repeat "=" (String.length m)) /\
  String.length (str_repeat "=" (String.length m)) = String.length m /\
  (exists rest, doc = m +:+ nl +:+ str_repeat "=" (String.length m) +:+ nl +:+ rest).
Proof.
  intros Hin Hm doc.
  assert (Hpkg : exists pkg, tmpl = automodule_text pkg /\
                   has_char nl_char pkg = false).
  { unfold module_templates in Hin.
    repeat (destruct Hin as [<- | Hin]; [eexists; split; [reflexivity | reflexivity] |]).
    destruct Hin. }
  destruct Hpkg as (pkg & -> & Hp).
  split; [|split].
  - unfold doc. rewrite automodule_lines; [done | done | apply eqs_no_nl | done].
  - rewrite str_repeat_length. simpl. lia.
  - eexists. unfold doc, automodule_text, text, py_join. simpl String.concat.
    rewrite !append_assoc. reflexivity.
Qed.

Lemma module_doc_underline_witness :
  In markov_module_template module_templates /\
  has_char nl_char "ergodicity" = false /\
  py_split nl_char (markov_module_template "ergodicity" "==========") !! 1 = Some "==========".
Proof.
  split; [right; left; reflexivity|]. split; [reflexivity|].
  exact (proj1 (module_doc_underline markov_module_template "ergodicity"
                  (or_intror (or_introl eq_refl)) eq_refl)).
Defined.

(** ** Mode selection (claim C2) *)

(** C2. Invoked as [script args...], the script runs [all_auto] when the
    literal ["single"] is among [args] and [model_tool] otherwise; exactly
    one of the two runs. *)
Theorem main_mode (script : string) (args : list string) :
  (In "single" args /\ main (script :: args) = all_auto) \/
  (~ In "single" args /\ main (script :: args) = model_tool).
Proof.
  unfold main. change (skipn 1 (script :: args)) with args.
  destruct (existsb (String.eqb "single") args) eqn:He.
  - left. split; [|done].
    apply existsb_exists in He as (x & Hx & Heq).
    apply String.eqb_eq in Heq. by subst.
  - right. split; [|done]. intros Hin.
    assert (existsb (String.eqb "single") args = true) as Ht.
    { apply existsb_exists. exists "single". split; [done|]. apply String.eqb_refl. }
    congruence.
Qed.

(** ** Handles and exceptions: every combinator is well behaved *)

Definition no_raise (l : list event) : Prop := forall e, ~ In (ERaise e) l.

Definition is_close (ev : event) : Prop :=
  match ev with EClose _ => True | _ => False end.

(** The events a computation adds: no exception if it returned; otherwise
    the exception it returned is raised once and only handles are closed
    after it. *)
Definition raise_shape {A} (r : outcome A) (l : list event) : Prop :=
  match r with
  | Ok _ => no_raise l
  | Exn e => exists pre post, l = pre ++ ERaise e :: post /\ no_raise pre /\ Forall is_close post
  end.

Definition WB {A} (m : M A) : Prop :=
  forall E s, let '(r, s') := m E s in
  handles s' = handles s /\ exists l, log s' = log s ++ l /\ raise_shape r l.

Lemma no_raise_nil : no_raise [].
Proof. intros e []. Qed.

Lemma no_raise_app l1 l2 : no_raise l1 -> no_raise l2 -> no_raise (l1 ++ l2).
Proof. intros H1 H2 e Hin. apply in_app_or in Hin as [Hin|Hin]; [by apply (H1 e) | by apply (H2 e)]. Qed.

Lemma no_raise_single ev : (forall e, ev <> ERaise e) -> no_raise [ev].
Proof. intros H e [Heq|[]]. by apply (H e). Qed.

Create HintDb wb.
#[local] Hint Resolve no_raise_nil no_raise_app : wb.

Lemma WB_ret {A} (a : A) : WB (ret a).
Proof. intros E s. simpl. split; [done|]. exists []. rewrite app_nil_r. split; [done|]. apply no_raise_nil. Qed.

Lemma WB_raise {A} e : WB (@raise A e).
Proof.
  intros E s. simpl. split; [done|]. exists [ERaise e]. split; [done|].
  exists [], []. repeat split; [apply no_raise_nil | constructor].
Qed.

Lemma raise_shape_app {A B} (a : A) (r : outcome B) l1 l2 :
  raise_shape (Ok a) l1 -> raise_shape r l2 -> raise_shape r (l1 ++ l2).
Proof.
  destruct r as [b|e]; simpl; intros H1 H2.
  - by apply no_raise_app.
  - destruct H2 as (pre & post & -> & Hpre & Hpost).
    exists (l1 ++ pre), post. rewrite <- app_assoc. repeat split; [|done].
    by apply no_raise_app.
Qed.

Lemma WB_bind {A B} (m : M A) (k : A -> M B) :
  WB m -> (forall a, WB (k a)) -> WB (bind m k).
Proof.
  intros Hm Hk E s. unfold bind. specialize (Hm E s).
  destruct (m E s) as [[a|e] s1]; destruct Hm as [Hh1 (l1 & Hl1 & Hr1)].
  - specialize (Hk a E s1). destruct (k a E s1) as [r s2].
    destruct Hk as [Hh2 (l2 & Hl2 & Hr2)].
    split; [congruence|]. exists (l1 ++ l2). rewrite Hl2, Hl1, app_assoc.
    split; [done|]. by eapply raise_shape_app.
  - split; [done|]. by exists l1.
Qed.

Lemma WB_for_each {A} (xs : list A) (body : A -> M unit) :
  (forall x, WB (body x)) -> WB (for_each xs body).
Proof.
  intros Hb. induction xs as [|x xs IH]; simpl; [apply WB_ret|].
  apply WB_bind; [done|]. intros _. apply IH.
Qed.

Lemma WB_glob d : WB (glob d).
Proof. intros E s. simpl. split; [done|]. exists []. rewrite app_nil_r. split; [done|]. apply no_raise_nil. Qed.

Lemma WB_path_exists p : WB (path_exists p).
Proof. intros E s. simpl. split; [done|]. exists []. rewrite app_nil_r. split; [done|]. apply no_raise_nil. Qed.

Lemma WB_makedirs p : WB (makedirs p).
Proof.
  intros E s. unfold makedirs.
  destruct (bool_decide (p ∈ dirs s) || mkdir_fails E p); [apply WB_raise|].
  simpl. split; [done|]. exists [EMkdir p]. split; [done|].
  by apply no_raise_single.
Qed.

Lemma WB_ensure_dir f : WB (ensure_dir f).
Proof.
  apply WB_bind; [apply WB_path_exists|]. intros []; [apply WB_ret|apply WB_makedirs].
Qed.

Lemma WB_write h d : WB (write h d).
Proof.
  intros E s. unfold write.
  destruct (write_fault E h) as [n|].
  - pose proof (WB_raise (A:=unit) (IOError h) E (append_file h (String.substring 0 n d) s)) as H.
    destruct (raise (IOError h) E _) as [r s'] eqn:Hr.
    destruct H as [Hh (l & Hl & Hs)]. split; [done|].
    exists (EWrite h (String.substring 0 n d) :: l). rewrite Hl. simpl.
    rewrite <- app_assoc. split; [done|].
    destruct r as [[]|e]; simpl in Hs |- *.
    + intros e' [He|He]; [discriminate|]. by apply (Hs e').
    + destruct Hs as (pre & post & -> & Hpre & Hpost).
      exists (EWrite h (String.substring 0 n d) :: pre), post. repeat split; [|done].
      intros e' [He|He]; [discriminate|]. by apply (Hpre e').
  - simpl. split; [done|]. exists [EWrite h d]. split; [done|].
    by apply no_raise_single.
Qed.

Lemma remove_handle_head h hs : remove_handle h (h :: hs) = hs.
Proof. simpl. by rewrite String.eqb_refl. Qed.

Lemma WB_with_open {A} p (body : string -> M A) :
  (forall h, WB (body h)) -> WB (with_open p body).
Proof.
  intros Hb E s. unfold with_open, bind, open_w.
  destruct (open_fails E p); [exact (WB_raise (A:=A) (IOError p) E s)|].
  match goal with |- context [body p E ?s1] =>
    specialize (Hb p E s1); destruct (body p E s1) as [r s2] end.
  destruct Hb as [Hh (l & Hl & Hr)].
  split.
  - simpl. rewrite Hh. simpl. apply remove_handle_head.
  - exists ([EOpen p] ++ l ++ [EClose p]). simpl. rewrite Hl. simpl.
    rewrite <- !app_assoc. split; [done|].
    destruct r as [a|e]; simpl in Hr |- *.
    + apply (no_raise_app [EOpen p]); [by apply no_raise_single|].
      apply no_raise_app; [done|]. by apply no_raise_single.
    + destruct Hr as (pre & post & -> & Hpre & Hpost).
      exists (EOpen p :: pre), (post ++ [EClose p]).
      rewrite <- app_assoc. repeat split.
      * apply (no_raise_app [EOpen p]); [by apply no_raise_single|done].
      * apply Forall_app. split; [done|]. repeat constructor.
Qed.

Lemma WB_dict_get d k : WB (dict_get d k).
Proof.
  induction d as [|[k' v] d IH]; simpl; [apply WB_raise|].
  destruct (String.eqb k k'); [apply WB_ret|apply IH].
Qed.

#[local] Hint Resolve WB_ret WB_raise WB_bind WB_for_each WB_glob WB_path_exists
  WB_makedirs WB_ensure_dir WB_write WB_with_open WB_dict_get : wb.

Lemma WB_write_modules folder t mods : WB (write_modules folder t mods).
Proof. unfold write_modules. auto with wb. Qed.

#[local] Hint Resolve WB_write_modules : wb.

Lemma WB_all_auto : WB all_auto.
Proof.
  unfold all_auto. apply WB_bind; [auto with wb|]. intros names.
  apply WB_bind; [auto with wb|]. intros []; auto with wb.
Qed.

Lemma WB_model_tool : WB model_tool.
Proof.
  unfold model_tool.
  repeat (apply WB_bind; [auto with wb|]; intros ?).
  all: auto 10 with wb.
Qed.

Lemma WB_main argv : WB (main argv).
Proof. unfold main. destruct existsb; [apply WB_all_auto|apply WB_model_tool]. Qed.

(** ** File writing and fatal errors (claim C10) *)

(** ** The file contents a fault-free run leaves *)

(** A run's effect on file contents as a list of assignments. *)
Definition apply_writes (ws : list (string * string)) (f : gmap string string)
  : gmap string string :=
  foldl (fun f kv => <[kv.1 := kv.2]> f) f ws.

Fixpoint last_write (k : string) (ws : list (string * string)) : option string :=
  match ws with
  | [] => None
  | (k', v) :: ws' =>
      match last_write k ws' with
      | Some v' => Some v'
      | None => if String.eqb k k' then Some v else None
      end
  end.

Lemma lookup_apply_writes ws (f : gmap string string) k :
  apply_writes ws f !! k =
    match last_write k ws with Some v => Some v | None => f !! k end.
Proof.
  revert f. induction ws as [|[k' v] ws IH]; intros f; simpl; [done|].
  rewrite IH. destruct (last_write k ws); [done|].
  destruct (String.eqb_spec k k') as [->|Hne].
  - by rewrite lookup_insert_eq.
  - by rewrite lookup_insert_ne.
Qed.

Lemma apply_writes_app ws1 ws2 f :
  apply_writes (ws1 ++ ws2) f = apply_writes ws2 (apply_writes ws1 f).
Proof. unfold apply_writes. by rewrite foldl_app. Qed.

(** Replaying the same assignments changes nothing. *)
Lemma apply_writes_idem ws f : apply_writes ws (apply_writes ws f) = apply_writes ws f.
Proof.
  apply map_eq. intros k. rewrite !lookup_apply_writes.
  destruct (last_write k ws); done.
Qed.

Section Deterministic.
Variable E : env.
Hypothesis HE : no_faults E.

(** [m] returns [r] and assigns [ws] to the files, from every state. *)
Definition Det {A} (m : M A) (ws : list (string * string)) (r : outcome A) : Prop :=
  forall s, fst (m E s) = r /\ files (snd (m E s)) = apply_writes ws (files s).

Lemma Det_eq {A} (m : M A) ws ws' r : ws' = ws -> Det m ws r -> Det m ws' r.
Proof. by intros ->. Qed.

Lemma Det_ret {A} (a : A) : Det (ret a) [] (Ok a).
Proof. done. Qed.

Lemma Det_seq {A B} (m : M A) (k : A -> M B) ws1 a ws2 r :
  Det m ws1 (Ok a) -> Det (k a) ws2 r -> Det (bind m k) (ws1 ++ ws2) r.
Proof.
  intros H1 H2 s. unfold bind. destruct (H1 s) as [Hr1 Hf1].
  destruct (m E s) as [r1 s1]. simpl in Hr1, Hf1. subst r1.
  destruct (H2 s1) as [Hr2 Hf2]. split; [done|].
  by rewrite Hf2, Hf1, apply_writes_app.
Qed.

Lemma Det_stop {A B} (m : M A) (k : A -> M B) ws e :
  Det m ws (Exn e) -> Det (bind m k) ws (Exn e).
Proof.
  intros H s. unfold bind. destruct (H s) as [Hr Hf].
  destruct (m E s) as [r1 s1]. simpl in Hr, Hf. by subst r1.
Qed.

Lemma Det_glob d : Det (glob d) [] (Ok (glob_result E d)).
Proof. done. Qed.

Lemma Det_ensure_dir f : Det (ensure_dir f) [] (Ok tt).
Proof.
  destruct HE as (Hm & _ & _).
  intros s. unfold ensure_dir, bind, path_exists, makedirs.
  destruct (bool_decide (source_join f ∈ dirs s)) eqn:Hd; simpl; [done|].
  destruct (bool_decide (is_Some _)); simpl; [done|].
  rewrite Hd, Hm. done.
Qed.

Lemma Det_for_each {A} (xs : list A) (body : A -> M unit) wsf :
  (forall x, Det (body x) (wsf x) (Ok tt)) ->
  Det (for_each xs body) (concat (map wsf xs)) (Ok tt).
Proof.
  intros Hb. induction xs as [|x xs IH]; simpl; [apply Det_ret|].
  by eapply Det_seq.
Qed.

(** A [with open(p, "w")] block whose body writes [d] once. *)
Lemma Det_with_write p (body : string -> M unit) d :
  (forall s, body p E s = write p d E s) ->
  Det (with_open p body) [(p, ""); (p, d)] (Ok tt).
Proof.
  destruct HE as (_ & Ho & Hw).
  intros Hb s. unfold with_open, bind, open_w. rewrite Ho, Hb.
  unfold write. rewrite Hw. simpl. rewrite lookup_insert_eq. simpl.
  split; [done|]. by rewrite append_nil_l.
Qed.

Lemma Det_with_raise p e : Det (with_open p (fun _ => @raise unit e)) [(p, "")] (Exn e).
Proof.
  destruct HE as (_ & Ho & _).
  intros s. unfold with_open, bind, open_w. rewrite Ho. done.
Qed.
End Deterministic.

(** The sorted module names of a category of the scanned tree. *)
Definition cat_names (E : env) (d : string) : list string :=
  py_sort (strip_names (glob_result E d)).

Definition module_writes (folder : list string)
    (template : string -> string -> string) (mods : list string) : list (string * string) :=
  concat (map (fun m =>
    let p := os_path_join (["source"] ++ folder ++ [m +:+ ".rst"]) in
    [(p, ""); (p, template m (str_repeat "=" (String.length m)))]) mods).

Definition index_write (f_name files : string) : list (string * string) :=
  let p := source_join (f_name +:+ ".rst") in
  [(p, ""); (p, split_file_template (capitalize f_name)
                  (str_repeat "=" (String.length f_name)) files)].

Definition model_tool_writes (E : env) : list (string * string) :=
  let markov := cat_names E "../quantecon/markov" in
  let models := cat_names E "../quantecon/models" in
  let solow := cat_names E "../quantecon/models/solow" in
  let random := cat_names E "../quantecon/random" in
  let tools := cat_names E "../quantecon" in
  let util := cat_names E "../quantecon/util" in
  module_writes ["markov"] markov_module_template markov ++
  module_writes ["models"] model_module_template models ++
  module_writes ["models"; "solow"] solow_model_module_template solow ++
  module_writes ["random"] random_module_template random ++
  module_writes ["tools"] module_template tools ++
  module_writes ["util"] util_module_template util ++
  [(source_join "index.rst", ""); (source_join "index.rst", split_index_template)] ++
  index_write "markov" (toc_list "markov/" markov) ++
  index_write "models" (toc_list "models/" models +:+ nl +:+ "   solow/") ++
  index_write "random" (toc_list "random/" random) ++
  index_write "tools" (toc_list "tools/" tools) ++
  index_write "util" (toc_list "util/" util).

Definition all_auto_names (E : env) : list string :=
  map (fun x => py_last (py_split "/"%char x)) (glob_result E "../quantecon").

Definition single_path (mod' : string) : string :=
  os_path_join ["source"; "modules"; py_first (py_split "."%char mod') +:+ ".rst"].

Definition all_auto_writes (E : env) : list (string * string) :=
  match all_auto_names E with
  | [] => [(source_join "index.rst", ""); (source_join "index.rst", all_index_template "")]
  | x :: _ => [(single_path x, "")]
  end.

Definition all_auto_result (E : env) : outcome unit :=
  match all_auto_names E with
  | [] => Ok tt
  | _ :: _ => Exn (NameError "gen_module")
  end.

Lemma Det_model_tool E : no_faults E -> Det E model_tool (model_tool_writes E) (Ok tt).
Proof.
  intros HE. unfold model_tool.
  eapply Det_eq; cycle 1.
  { repeat (eapply Det_seq; [apply Det_glob|]; cbv beta zeta).
    eapply Det_seq; [apply Det_for_each; intros; by apply Det_ensure_dir|].
    unfold write_modules.
    do 6 (eapply Det_seq; [apply Det_for_each; intros; apply Det_with_write; [done|]; reflexivity|]).
    eapply Det_seq; [apply Det_with_write; [done|]; reflexivity|].
    cbv beta zeta. cbn [for_each].
    do 5 (eapply Det_seq; [apply Det_with_write; [done|]; reflexivity|]).
    apply Det_ret. }
  reflexivity.
Qed.

Lemma Det_all_auto E : no_faults E -> Det E all_auto (all_auto_writes E) (all_auto_result E).
Proof.
  intros HE. unfold all_auto, all_auto_writes, all_auto_result.
  destruct (all_auto_names E) as [|x xs] eqn:Hn;
    (eapply Det_eq; cycle 1;
     [eapply Det_seq; [apply Det_glob|]; cbv beta zeta;
      eapply Det_seq; [by apply Det_ensure_dir|];
      fold (all_auto_names E); rewrite Hn|]).
  - eapply Det_seq; [apply Det_ret|].
    apply Det_with_write; [done|]. reflexivity.
  - reflexivity.
  - apply Det_stop. apply Det_stop. by apply Det_with_raise.
  - reflexivity.
Qed.

Lemma Det_main E argv : no_faults E ->
  exists ws r, Det E (main argv) ws r.
Proof.
  intros HE. unfold main. destruct existsb.
  - do 2 eexists. by apply Det_all_auto.
  - do 2 eexists. by apply Det_model_tool.
Qed.

(** ** Reruns (claim C5) *)

(** C5. In a world without I/O faults, the second of two runs with the same
    arguments on the same scanned tree assigns the same contents to the
    same paths as the first, so it leaves every file byte for byte as the
    first run left it, and ends the same way. *)
Theorem rerun_idempotent (E : env) (argv : list string) (s : fs) :
  no_faults E ->
  let s1 := snd (main argv E s) in
  let s2 := snd (main argv E s1) in
  (exists ws, files s1 = apply_writes ws (files s) /\ files s2 = apply_writes ws (files s1)) /\
  files s2 = files s1 /\ fst (main argv E s1) = fst (main argv E s).
Proof.
  intros HE. destruct (Det_main E argv HE) as (ws & r & HD).
  destruct (HD s) as [Hr1 Hf1]. destruct (HD (snd (main argv E s))) as [Hr2 Hf2].
  cbv zeta. split; [by exists ws|]. split.
  - rewrite Hf2, Hf1. apply apply_writes_idem.
  - by rewrite Hr2, Hr1.
Qed.

Lemma clean_env_no_faults tree : no_faults (clean_env tree).
Proof. repeat split. Qed.

Definition example_tree : list (string * list string) :=
  [("../quantecon/markov", ["ergodicity.py"]); ("../quantecon/models", ["lucastree.py"])].

Lemma rerun_idempotent_witness :
  no_faults (clean_env example_tree) /\
  files (snd (main ["qe_apidoc.py"] (clean_env example_tree)
                (snd (main ["qe_apidoc.py"] (clean_env example_tree) fs0)))) =
  files (snd (main ["qe_apidoc.py"] (clean_env example_tree) fs0)).
Proof.
  split; [apply clean_env_no_faults|].
  exact (proj1 (proj2 (rerun_idempotent (clean_env example_tree) ["qe_apidoc.py"] fs0
                         (clean_env_no_faults example_tree)))).
Defined.

(** ** The end-to-end example (claim C6) *)

(** C6, as the spec states it: the markov document of [ergodicity] carries
    an eight-character underline. It does not: [ergodicity] has ten
    characters and the underline is [len(mod)] long. *)
Lemma split_example_eight_chars_false :
  files (snd (main ["qe_apidoc.py"] (clean_env example_tree) fs0))
    !! "source/markov/ergodicity.rst"
  <> Some (markov_module_template "ergodicity" "========").
Proof. vm_compute. discriminate. Qed.

(** C6, amended. From any output tree, split mode on a scanned tree with
    just [markov/ergodicity.py] and [models/lucastree.py] writes
    [source/markov/ergodicity.rst] as the markov template with
    [mod_name = "ergodicity"] and a ten-character underline,
    [source/models/lucastree.rst] as the models template with a
    nine-character underline, and [source/markov.rst] lists
    [markov/ergodicity] in its toctree. *)
Theorem split_example (s : fs) :
  let s' := snd (main ["qe_apidoc.py"] (clean_env example_tree) s) in
  files s' !! "source/markov/ergodicity.rst"
    = Some (markov_module_template "ergodicity" "==========") /\
  files s' !! "source/models/lucastree.rst"
    = Some (model_module_template "lucastree" "=========") /\
  exists d, files s' !! "source/markov.rst" = Some d /\
            In "markov/ergodicity" (toc_entries d).
Proof.
  intros s'.
  destruct (Det_model_tool (clean_env example_tree) (clean_env_no_faults _) s) as [_ Hf].
  unfold s'. change (main ["qe_apidoc.py"]) with model_tool.
  rewrite Hf, !lookup_apply_writes.
  split; [vm_compute; reflexivity|]. split; [vm_compute; reflexivity|].
  exists (split_file_template "Markov" "======" "markov/ergodicity").
  split; [vm_compute; reflexivity|]. vm_compute. left. reflexivity.
Qed.

(** ** Single-index mode (claim C3) *)

(** C3. In a world without I/O faults, when the scan of [../quantecon]
    finds at least one module, [all_auto] makes sure [source/modules]
    exists (creating it when absent), opens the first module's [.rst]
    (in glob order), which truncates it to the empty file, and then raises
    [NameError] on [gen_module]; it closes that file and stops: no content
    is written to any file and [source/index.rst] is never opened. *)
Theorem single_mode_name_error (E : env) (s : fs) (g : string) (gs : list string) :
  no_faults E -> glob_result E "../quantecon" = g :: gs ->
  let p := single_path (py_last (py_split "/"%char g)) in
  let '(r, s') := all_auto E s in
  r = Exn (NameError "gen_module") /\
  (source_join "modules" ∈ dirs s' \/ is_Some (files s' !! source_join "modules")) /\
  files s' = <[p := ""]> (files s) /\
  exists pre, log s' = log s ++ pre ++ [EOpen p; ERaise (NameError "gen_module"); EClose p] /\
              Forall (fun ev => exists d, ev = EMkdir d) pre.
Proof.
  intros (Hm & Ho & Hw) Hg p.
  unfold all_auto, bind at 1, glob. rewrite Hg. cbn beta iota zeta.
  unfold bind at 1, ensure_dir, bind at 1, path_exists. cbn beta iota.
  destruct (bool_decide (source_join "modules" ∈ dirs s)) eqn:Hd;
  [|destruct (bool_decide (is_Some (files s !! source_join "modules"))) eqn:Hf].
  - cbn [orb]. unfold ret. cbn [map for_each]. unfold with_open, bind, open_w.
    rewrite Ho. cbn. split; [done|]. split.
    + left. by apply bool_decide_eq_true in Hd.
    + split; [done|]. exists []. split; [by rewrite <- !app_assoc|constructor].
  - cbn [orb]. unfold ret. cbn [map for_each]. unfold with_open, bind, open_w.
    rewrite Ho. cbn. split; [done|]. split.
    + right. rewrite lookup_insert_ne; [by apply bool_decide_eq_true in Hf|].
      intros Heq. apply (f_equal (String.substring 14 1)) in Heq.
      vm_compute in Heq. discriminate.
    + split; [done|]. exists []. split; [by rewrite <- !app_assoc|constructor].
  - cbn [orb]. unfold makedirs. rewrite Hd, Hm. cbn [orb].
    cbn [map for_each]. unfold with_open, bind, open_w.
    rewrite Ho. cbn. split; [done|]. split.
    + left. apply elem_of_union_l. apply elem_of_list_to_set. vm_compute.
      right. left.
    + split; [done|]. exists [EMkdir (source_join "modules")].
      split; [by rewrite <- !app_assoc|]. repeat constructor. by eexists.
Qed.

Lemma single_mode_name_error_witness :
  no_faults (clean_env [("../quantecon", ["ergodicity.py"])]) /\
  glob_result (clean_env [("../quantecon", ["ergodicity.py"])]) "../quantecon"
    = ["../quantecon/ergodicity.py"] /\
  fst (all_auto (clean_env [("../quantecon", ["ergodicity.py"])]) fs0)
    = Exn (NameError "gen_module").
Proof.
  split; [apply clean_env_no_faults|]. split; [reflexivity|].
  pose proof (single_mode_name_error (clean_env [("../quantecon", ["ergodicity.py"])]) fs0
                "../quantecon/ergodicity.py" [] (clean_env_no_faults _) eq_refl) as H.
  cbv zeta in H.
  destruct (all_auto (clean_env [("../quantecon", ["ergodicity.py"])]) fs0) as [r s'].
  exact (proj1 H).
Defined.

(** ** Order of the discovered names (claim C4) *)

(** C4, on a scanned tree whose directory order is [b.py], [a.py]:
    split mode sorts the names and writes [source/tools/a.rst] first, while
    single mode does not sort and renders [b] first. *)
Lemma single_mode_glob_order :
  let E := clean_env [("../quantecon", ["b.py"; "a.py"])] in
  log (snd (all_auto E fs0)) =
    [EMkdir "source/modules"; EOpen "source/modules/b.rst";
     ERaise (NameError "gen_module"); EClose "source/modules/b.rst"] /\
  cat_names E "../quantecon" = ["a"; "b"] /\
  opened (log (snd (model_tool E fs0))) =
    ["source/tools/a.rst"; "source/tools/b.rst"; "source/index.rst";
     "source/markov.rst"; "source/models.rst"; "source/random.rst";
     "source/tools.rst"; "source/util.rst"].
Proof. vm_compute. repeat split. Qed.

(** ** Which paths each mode touches *)

(** [ev] respects [P] if it opens a path, [D] if it creates a directory. *)
Definition evq (P D : string -> Prop) (ev : event) : Prop :=
  match ev with
  | EOpen p => P p
  | EMkdir d => D d
  | _ => True
  end.

Definition Events (P D : string -> Prop) {A} (m : M A) : Prop :=
  forall E s, exists l, log (snd (m E s)) = log s ++ l /\ Forall (evq P D) l.

Section Events.
Variables P D : string -> Prop.

Lemma Ev_ret {A} (a : A) : Events P D (ret a).
Proof. intros E s. exists []. by rewrite app_nil_r. Qed.

Lemma Ev_raise {A} e : Events P D (@raise A e).
Proof. intros E s. exists [ERaise e]. split; [done|]. repeat constructor. Qed.

Lemma Ev_bind {A B} (m : M A) (k : A -> M B) :
  Events P D m -> (forall a, Events P D (k a)) -> Events P D (bind m k).
Proof.
  intros Hm Hk E s. unfold bind. destruct (Hm E s) as (l1 & Hl1 & Hf1).
  destruct (m E s) as [[a|e] s1]; simpl in Hl1.
  - destruct (Hk a E s1) as (l2 & Hl2 & Hf2). exists (l1 ++ l2).
    rewrite Hl2, Hl1, app_assoc. split; [done|]. by apply Forall_app.
  - by exists l1.
Qed.

Lemma Ev_for_each {A} (xs : list A) (body : A -> M unit) :
  (forall x, In x xs -> Events P D (body x)) -> Events P D (for_each xs body).
Proof.
  induction xs as [|x xs IH]; intros Hb; simpl; [apply Ev_ret|].
  apply Ev_bind; [apply Hb; by left|]. intros _. apply IH. intros y Hy. apply Hb. by right.
Qed.

Lemma Ev_glob d : Events P D (glob d).
Proof. intros E s. exists []. by rewrite app_nil_r. Qed.

Lemma Ev_path_exists p : Events P D (path_exists p).
Proof. intros E s. exists []. by rewrite app_nil_r. Qed.

Lemma Ev_makedirs p : D p -> Events P D (makedirs p).
Proof.
  intros Hp E s. unfold makedirs.
  destruct (bool_decide (p ∈ dirs s) || mkdir_fails E p); [apply Ev_raise|].
  exists [EMkdir p]. split; [done|]. by repeat constructor.
Qed.

Lemma Ev_ensure_dir f : D (source_join f) -> Events P D (ensure_dir f).
Proof.
  intros Hf. apply Ev_bind; [apply Ev_path_exists|].
  intros []; [apply Ev_ret | by apply Ev_makedirs].
Qed.

Lemma Ev_write h d : Events P D (write h d).
Proof.
  intros E s. unfold write. destruct (write_fault E h).
  - exists [EWrite h (String.substring 0 n d); ERaise (IOError h)].
    split; [simpl; by rewrite <- app_assoc|]. repeat constructor.
  - exists [EWrite h d]. split; [done|]. repeat constructor.
Qed.

Lemma Ev_with_open {A} p (body : string -> M A) :
  P p -> (forall h, Events P D (body h)) -> Events P D (with_open p body).
Proof.
  intros Hp Hb E s. unfold with_open, bind, open_w.
  destruct (open_fails E p).
  { exists [ERaise (IOError p)]. split; [done|]. repeat constructor. }
  match goal with |- context [body p E ?s1] =>
    destruct (Hb p E s1) as (l & Hl & Hf); destruct (body p E s1) as [r s2] end.
  simpl in Hl |- *. exists ([EOpen p] ++ l ++ [EClose p]).
  rewrite Hl. simpl. rewrite <- !app_assoc. split; [done|].
  constructor; [done|]. apply Forall_app. split; [done|]. by repeat constructor.
Qed.

Lemma Ev_dict_get d k : Events P D (dict_get d k).
Proof.
  induction d as [|[k' v] d IH]; simpl; [apply Ev_raise|].
  destruct (String.eqb k k'); [apply Ev_ret|apply IH].
Qed.
End Events.

Definition split_categories : list string :=
  ["markov"; "models"; "models/solow"; "random"; "tools"; "util"].

Definition single_open (p : string) : Prop :=
  p = source_join "index.rst" \/ exists n, p = "source/modules/" +:+ n.

Definition single_dir (d : string) : Prop := d = source_join "modules".

Definition split_open (p : string) : Prop :=
  In p (map (fun f => source_join (f +:+ ".rst"))
          ["index"; "markov"; "models"; "random"; "tools"; "util"]) \/
  exists c n, In c split_categories /\ p = "source/" +:+ c +:+ "/" +:+ n.

Definition split_dir (d : string) : Prop := In d (map source_join split_categories).

Lemma concat_snoc sep l x :
  l <> [] -> String.concat sep (l ++ [x]) = String.concat sep l +:+ sep +:+ x.
Proof.
  induction l as [|a [|b r] IH]; intros Hne; [done|done|].
  change (String.concat sep ((a :: b :: r) ++ [x]))
    with (a +:+ sep +:+ String.concat sep ((b :: r) ++ [x])).
  rewrite IH by done.
  change (String.concat sep (a :: b :: r)) with (a +:+ sep +:+ String.concat sep (b :: r)).
  by rewrite !append_assoc.
Qed.

Lemma module_path_split folder x :
  folder <> [] ->
  os_path_join (["source"] ++ folder ++ [x]) =
    "source/" +:+ os_path_join folder +:+ "/" +:+ x.
Proof.
  intros Hne. unfold os_path_join, py_join.
  destruct folder as [|f fs]; [done|].
  change (String.concat "/" (["source"] ++ (f :: fs) ++ [x]))
    with ("source" +:+ "/" +:+ String.concat "/" ((f :: fs) ++ [x])).
  rewrite concat_snoc by done. rewrite <- append_assoc. reflexivity.
Qed.

Lemma Ev_write_modules folder t mods :
  folder <> [] -> In (os_path_join folder) split_categories ->
  Events split_open split_dir (write_modules folder t mods).
Proof.
  intros Hne Hin. apply Ev_for_each. intros m _.
  apply Ev_with_open; [|intros; apply Ev_write].
  right. exists (os_path_join folder), (m +:+ ".rst"). split; [done|].
  by apply module_path_split.
Qed.

Lemma Ev_all_auto : Events single_open single_dir all_auto.
Proof.
  unfold all_auto. apply Ev_bind; [apply Ev_glob|]. intros names. cbv beta zeta.
  apply Ev_bind; [by apply Ev_ensure_dir|]. intros _.
  apply Ev_bind.
  - apply Ev_for_each. intros x _. apply Ev_with_open; [|intros; apply Ev_raise].
    right. eexists. reflexivity.
  - intros _. apply Ev_with_open; [by left | intros; apply Ev_write].
Qed.

Lemma Ev_model_tool : Events split_open split_dir model_tool.
Proof.
  unfold model_tool.
  do 6 (apply Ev_bind; [apply Ev_glob|]; intros ?; cbv beta zeta).
  apply Ev_bind.
  { apply Ev_for_each. intros c Hc. apply Ev_ensure_dir. by apply in_map. }
  intros _.
  do 6 (apply Ev_bind; [apply Ev_write_modules; [done | simpl; tauto] |]; intros _).
  apply Ev_bind; [apply Ev_with_open; [left; simpl; tauto | intros; apply Ev_write]|].
  intros _. apply Ev_for_each. intros f Hf.
  apply Ev_with_open.
  - left. apply (in_map (fun f => source_join (f +:+ ".rst"))). simpl in Hf |- *. tauto.
  - intros h. apply Ev_bind; [apply Ev_dict_get | intros; apply Ev_write].
Qed.

Lemma single_split_overlap p : single_open p -> split_open p -> p = source_join "index.rst".
Proof.
  intros [->|[n ->]] Hs; [done|]. exfalso.
  destruct Hs as [Hin | (c & m & Hc & Heq)].
  - simpl in Hin.
    repeat (destruct Hin as [Hin|Hin];
      [apply (f_equal (String.substring 7 4)) in Hin; vm_compute in Hin; discriminate|]).
    done.
  - unfold split_categories in Hc. simpl in Hc.
    repeat (destruct Hc as [<-|Hc];
      [apply (f_equal (String.substring 7 4)) in Heq; vm_compute in Heq; discriminate|]).
    done.
Qed.

(** ** The two output trees (claim C7) *)

(** C7, as the spec states it: the output paths of the two modes are
    disjoint. They are not: on a scanned tree without modules both modes
    open [source/index.rst]. *)
Lemma modes_share_index :
  In "source/index.rst" (opened (log (snd (main ["qe_apidoc.py"; "single"] (clean_env []) fs0)))) /\
  In "source/index.rst" (opened (log (snd (main ["qe_apidoc.py"] (clean_env []) fs0)))) /\
  In "source/index.rst" (opened (log (snd (main ["qe_apidoc.py"; "foo"] (clean_env []) fs0)))).
Proof. vm_compute. repeat split; tauto. Qed.

(** ** Toctree lines of the category index documents *)

Definition toc_lines (prefix : string) (names : list string) : list string :=
  match names with
  | [] => ["   " +:+ prefix]
  | _ => map (fun n => "   " +:+ prefix +:+ n) names
  end.

Lemma text_cons a b rest : text (a :: b :: rest) = a +:+ String nl_char (text (b :: rest)).
Proof. reflexivity. Qed.

Lemma nl_append b : nl +:+ b = String nl_char b.
Proof. reflexivity. Qed.

Lemma split_file_lines name eq files :
  has_char nl_char name = false -> has_char nl_char eq = false ->
  py_split nl_char (split_file_template name eq files) =
    [name; eq; ""; ".. toctree::"; "   :maxdepth: 2"; ""] ++
    py_split nl_char ("   " +:+ files) ++ [""].
Proof.
  intros Hn He. unfold split_file_template. rewrite !text_cons, !py_split_sep_app.
  rewrite (py_split_no_char _ name), (py_split_no_char _ eq) by done.
  reflexivity.
Qed.

Lemma toc_list_lines prefix names :
  has_char nl_char prefix = false ->
  Forall (fun n => has_char nl_char n = false) names ->
  py_split nl_char ("   " +:+ toc_list prefix names) = toc_lines prefix names.
Proof.
  intros Hp Hns. unfold toc_list.
  destruct names as [|n ns].
  - change (py_join (nl +:+ "   " +:+ prefix) []) with "".
    rewrite append_empty_r. apply py_split_no_char.
    rewrite has_char_append, Hp. done.
  - revert n Hns. induction ns as [|m ns IH]; intros n Hns.
    + inversion Hns; subst. change (py_join (nl +:+ "   " +:+ prefix) [n]) with n.
      apply py_split_no_char.
      rewrite !has_char_append, Hp. simpl. done.
    + inversion Hns; subst.
      assert (Heq : "   " +:+ prefix +:+ py_join (nl +:+ "   " +:+ prefix) (n :: m :: ns) =
              ("   " +:+ prefix +:+ n) +:+
                String nl_char ("   " +:+ prefix +:+ py_join (nl +:+ "   " +:+ prefix) (m :: ns))).
      { unfold py_join. change (String.concat ?s (n :: m :: ns)) with (n +:+ s +:+ String.concat s (m :: ns)).
        rewrite !append_assoc, nl_append. reflexivity. }
      rewrite Heq, py_split_sep_app, IH by done.
      rewrite py_split_no_char; [done|].
      rewrite !has_char_append, Hp. simpl. done.
Qed.

(** ** Index documents written by split mode (claims C8 and C9) *)

Definition index_doc (f_name files : string) : string :=
  split_file_template (capitalize f_name) (str_repeat "=" (String.length f_name)) files.

(** The toctree entries [toc_list prefix names] produces. *)
Definition toc_names (prefix : string) (names : list string) : list string :=
  match names with
  | [] => [prefix]
  | _ => map (fun n => prefix +:+ n) names
  end.

Lemma last_write_app_r k A B v :
  last_write k B = Some v -> last_write k (A ++ B) = Some v.
Proof. induction A as [|[k' w] A IH]; simpl; [done|]. intros H. by rewrite IH. Qed.

Lemma last_write_app_l k A B :
  last_write k B = None -> last_write k (A ++ B) = last_write k A.
Proof.
  intros H. induction A as [|[k' w] A IH]; simpl; [done|]. by rewrite IH.
Qed.

Lemma last_write_index_write f files :
  last_write (source_join (f +:+ ".rst")) (index_write f files) = Some (index_doc f files).
Proof. unfold index_write. cbn [last_write]. by rewrite String.eqb_refl. Qed.

Ltac strip_writes :=
  rewrite last_write_app_l by reflexivity;
  apply last_write_index_write.

Lemma model_tool_index_writes E :
  let ws := model_tool_writes E in
  last_write (source_join "index.rst") ws = Some split_index_template /\
  last_write (source_join ("markov" +:+ ".rst")) ws
    = Some (index_doc "markov" (toc_list "markov/" (cat_names E "../quantecon/markov"))) /\
  last_write (source_join ("models" +:+ ".rst")) ws
    = Some (index_doc "models" (toc_list "models/" (cat_names E "../quantecon/models")
                                  +:+ nl +:+ "   solow/")) /\
  last_write (source_join ("random" +:+ ".rst")) ws
    = Some (index_doc "random" (toc_list "random/" (cat_names E "../quantecon/random"))) /\
  last_write (source_join ("tools" +:+ ".rst")) ws
    = Some (index_doc "tools" (toc_list "tools/" (cat_names E "../quantecon"))) /\
  last_write (source_join ("util" +:+ ".rst")) ws
    = Some (index_doc "util" (toc_list "util/" (cat_names E "../quantecon/util"))).
Proof.
  unfold model_tool_writes. cbv zeta.
  split; [|split; [|split; [|split; [|split]]]].
  - do 6 apply last_write_app_r. rewrite last_write_app_l by reflexivity. reflexivity.
  - do 7 apply last_write_app_r. strip_writes.
  - do 8 apply last_write_app_r. strip_writes.
  - do 9 apply last_write_app_r. strip_writes.
  - do 10 apply last_write_app_r. strip_writes.
  - do 11 apply last_write_app_r. apply last_write_index_write.
Qed.

(** From any output tree, fault-free split mode leaves the top-level index
    and the five category index documents with these contents. *)
Lemma model_tool_index_docs E s :
  no_faults E ->
  let f := files (snd (model_tool E s)) in
  f !! source_join "index.rst" = Some split_index_template /\
  f !! source_join "markov.rst"
    = Some (index_doc "markov" (toc_list "markov/" (cat_names E "../quantecon/markov"))) /\
  f !! source_join "models.rst"
    = Some (index_doc "models" (toc_list "models/" (cat_names E "../quantecon/models")
                                  +:+ nl +:+ "   solow/")) /\
  f !! source_join "random.rst"
    = Some (index_doc "random" (toc_list "random/" (cat_names E "../quantecon/random"))) /\
  f !! source_join "tools.rst"
    = Some (index_doc "tools" (toc_list "tools/" (cat_names E "../quantecon"))) /\
  f !! source_join "util.rst"
    = Some (index_doc "util" (toc_list "util/" (cat_names E "../quantecon/util"))).
Proof.
  intros HE f. destruct (Det_model_tool E HE s) as [_ Hf].
  destruct (model_tool_index_writes E) as (H1 & H2 & H3 & H4 & H5 & H6).
  unfold f. rewrite Hf, !lookup_apply_writes.
  change "markov.rst" with ("markov" +:+ ".rst"). change "models.rst" with ("models" +:+ ".rst").
  change "random.rst" with ("random" +:+ ".rst"). change "tools.rst" with ("tools" +:+ ".rst").
  change "util.rst" with ("util" +:+ ".rst").
  rewrite H1, H2, H3, H4, H5, H6. repeat split.
Qed.

Lemma omap_map_some {A B C} (f : B -> option C) (g : A -> B) (h : A -> C) l :
  (forall x, f (g x) = Some (h x)) -> omap f (map g l) = map h l.
Proof.
  intros H. induction l as [|x l IH]; [done|].
  change (omap f (map g (x :: l)))
    with (match f (g x) with Some y => y :: omap f (map g l) | None => omap f (map g l) end).
  by rewrite H, IH.
Qed.

Lemma omap_toc_lines prefix names :
  toc_entry ("   " +:+ prefix) = Some prefix ->
  (forall n, toc_entry ("   " +:+ prefix +:+ n) = Some (prefix +:+ n)) ->
  omap toc_entry (toc_lines prefix names) = toc_names prefix names.
Proof.
  intros H0 H1. destruct names as [|n ns].
  - exact (omap_map_some toc_entry (fun _ : unit => "   " +:+ prefix) (fun _ => prefix) [tt]
             (fun _ => H0)).
  - exact (omap_map_some toc_entry (fun n => "   " +:+ prefix +:+ n) (fun n => prefix +:+ n)
             (n :: ns) H1).
Qed.

Lemma index_doc_entries f files L :
  has_char nl_char (capitalize f) = false -> toc_entry (capitalize f) = None ->
  toc_entry (str_repeat "=" (String.length f)) = None ->
  py_split nl_char ("   " +:+ files) = L ->
  toc_entries (index_doc f files) = omap toc_entry L.
Proof.
  intros Hc Tc Te HL. unfold toc_entries, index_doc.
  rewrite split_file_lines by (done || apply eqs_no_nl).
  rewrite HL, !omap_app. simpl. rewrite Tc, Te. simpl. apply app_nil_r.
Qed.

Lemma models_lines names :
  Forall (fun n => has_char nl_char n = false) names ->
  py_split nl_char ("   " +:+ (toc_list "models/" names +:+ nl +:+ "   solow/"))
    = toc_lines "models/" names ++ ["   solow/"].
Proof.
  intros Hns. rewrite <- append_assoc, nl_append, py_split_sep_app.
  rewrite toc_list_lines by done. reflexivity.
Qed.

(** Discovered names stay free of a character their file names lack. *)
Lemma has_char_substring c n m s :
  has_char c s = false -> has_char c (String.substring n m s) = false.
Proof.
  revert n m. induction s as [|d s IH]; intros n m Hs; destruct n, m; simpl in *; try done.
  - apply orb_false_iff in Hs as [Hd Hs]. rewrite Hd. simpl. by apply IH.
  - apply orb_false_iff in Hs as [_ Hs]. by apply IH.
  - apply orb_false_iff in Hs as [_ Hs]. by apply IH.
Qed.

Lemma py_split_pieces c c' s :
  has_char c' s = false -> Forall (fun x => has_char c' x = false) (py_split c s).
Proof.
  induction s as [|d s IH]; intros Hs; simpl in *; [by repeat constructor|].
  apply orb_false_iff in Hs as [Hd Hs]. specialize (IH Hs).
  destruct (Ascii.eqb d c); [by constructor|].
  destruct (py_split c s) as [|x r]; [by repeat constructor; simpl; rewrite Hd|].
  inversion IH; subst. constructor; [|done]. simpl. by rewrite Hd.
Qed.

Lemma py_last_forall (P : string -> Prop) l : Forall P l -> P "" -> P (py_last l).
Proof.
  intros Hl H0. induction Hl as [|x l Hx Hl IH]; [done|].
  destruct l as [|y l]; [done|]. exact IH.
Qed.

Lemma insert_sorted_forall (P : string -> Prop) x l :
  P x -> Forall P l -> Forall P (insert_sorted x l).
Proof.
  intros Hx Hl. induction Hl as [|y l Hy Hl IH]; simpl; [by constructor|].
  destruct (String.leb x y); by repeat constructor.
Qed.

Lemma py_sort_forall (P : string -> Prop) l : Forall P l -> Forall P (py_sort l).
Proof.
  induction 1; simpl; [constructor|]. by apply insert_sorted_forall.
Qed.

Definition names_no_nl (E : env) : Prop :=
  forall d n, In n (listdir E d) -> has_char nl_char n = false.

Lemma cat_names_no_nl E d :
  names_no_nl E -> has_char nl_char d = false ->
  Forall (fun n => has_char nl_char n = false) (cat_names E d).
Proof.
  intros HE Hd. unfold cat_names. apply py_sort_forall.
  unfold strip_names, glob_result. rewrite map_map. apply Forall_forall.
  intros x Hx. apply list_elem_of_In, in_map_iff in Hx as (n & <- & Hn).
  apply list_elem_of_In, list_elem_of_filter in Hn as [_ Hn].
  unfold drop_end. apply has_char_substring.
  apply py_last_forall; [|done]. apply py_split_pieces.
  rewrite !has_char_append, Hd. simpl.
  rewrite (HE d n); [done|]. by apply list_elem_of_In.
Qed.

Ltac prefix_entry := first [reflexivity | intros; reflexivity].

(** The toctree entries of the six index documents fault-free split mode
    leaves behind. *)
Lemma model_tool_index_entries E s :
  no_faults E -> names_no_nl E ->
  let f := files (snd (model_tool E s)) in
  option_map toc_entries (f !! source_join "index.rst")
    = Some ["markov"; "models"; "random"; "tools"] /\
  option_map toc_entries (f !! source_join "markov.rst")
    = Some (toc_names "markov/" (cat_names E "../quantecon/markov")) /\
  option_map toc_entries (f !! source_join "models.rst")
    = Some (toc_names "models/" (cat_names E "../quantecon/models") ++ ["solow/"]) /\
  option_map toc_entries (f !! source_join "random.rst")
    = Some (toc_names "random/" (cat_names E "../quantecon/random")) /\
  option_map toc_entries (f !! source_join "tools.rst")
    = Some (toc_names "tools/" (cat_names E "../quantecon")) /\
  option_map toc_entries (f !! source_join "util.rst")
    = Some (toc_names "util/" (cat_names E "../quantecon/util")).
Proof.
  intros HE Hn f.
  destruct (model_tool_index_docs E s HE) as (H1 & H2 & H3 & H4 & H5 & H6).
  unfold f. rewrite H1, H2, H3, H4, H5, H6. cbn [option_map].
  split; [by rewrite toc_entries_split_index|].
  repeat split; f_equal.
  - erewrite index_doc_entries; [|done..|apply toc_list_lines; [done|]].
    + apply omap_toc_lines; prefix_entry.
    + by apply cat_names_no_nl.
  - erewrite index_doc_entries; [|done..|apply models_lines].
    + rewrite omap_app, omap_toc_lines by prefix_entry. reflexivity.
    + by apply cat_names_no_nl.
  - erewrite index_doc_entries; [|done..|apply toc_list_lines; [done|]].
    + apply omap_toc_lines; prefix_entry.
    + by apply cat_names_no_nl.
  - erewrite index_doc_entries; [|done..|apply toc_list_lines; [done|]].
    + apply omap_toc_lines; prefix_entry.
    + by apply cat_names_no_nl.
  - erewrite index_doc_entries; [|done..|apply toc_list_lines; [done|]].
    + apply omap_toc_lines; prefix_entry.
    + by apply cat_names_no_nl.
Qed.

Lemma toc_names_prefixed prefix names e :
  In e (toc_names prefix names) -> exists n, e = prefix +:+ n.
Proof.
  unfold toc_names. destruct names as [|m ms].
  - intros [<-|[]]. exists "". by rewrite append_empty_r.
  - intros Hin. apply in_map_iff in Hin as (n & <- & _). by exists n.
Qed.

Lemma names_no_nl_clean_empty : names_no_nl (clean_env []).
Proof. intros d n []. Qed.

(** A scanned tree without any module: split mode's [source/markov.rst]
    lists the bare entry [markov/] and [source/models.rst] lists [models/]
    and [solow/]. *)
Lemma empty_category_bare_entry :
  let f := files (snd (main ["qe_apidoc.py"] (clean_env []) fs0)) in
  option_map toc_entries (f !! source_join "markov.rst") = Some ["markov/"] /\
  option_map toc_entries (f !! source_join "models.rst") = Some ["models/"; "solow/"].
Proof. vm_compute. split; reflexivity. Qed.

(** C8. In a world without I/O faults, whose scanned file names hold no
    newline, the toctree of each category index document written by split
    mode lists [prefix ++ n] for the names [n] discovered in the category,
    in sorted order ([cat_names] sorts them); the models document appends
    the fixed entry [solow/]. When a category has no module, [toc_names]
    gives the bare prefix instead: an entry that is no module. *)
Theorem category_index_entries (E : env) (s : fs) :
  no_faults E -> names_no_nl E ->
  let f := files (snd (main ["qe_apidoc.py"] E s)) in
  option_map toc_entries (f !! source_join "markov.rst")
    = Some (toc_names "markov/" (cat_names E "../quantecon/markov")) /\
  option_map toc_entries (f !! source_join "models.rst")
    = Some (toc_names "models/" (cat_names E "../quantecon/models") ++ ["solow/"]) /\
  option_map toc_entries (f !! source_join "random.rst")
    = Some (toc_names "random/" (cat_names E "../quantecon/random")) /\
  option_map toc_entries (f !! source_join "tools.rst")
    = Some (toc_names "tools/" (cat_names E "../quantecon")) /\
  option_map toc_entries (f !! source_join "util.rst")
    = Some (toc_names "util/" (cat_names E "../quantecon/util")) /\
  (cat_names E "../quantecon/markov" = [] ->
   option_map toc_entries (f !! source_join "markov.rst") = Some ["markov/"]).
Proof.
  intros HE Hn f.
  destruct (model_tool_index_entries E s HE Hn) as (_ & H2 & H3 & H4 & H5 & H6).
  unfold f. change (main ["qe_apidoc.py"]) with model_tool.
  repeat split; try done. intros He. by rewrite H2, He.
Qed.

Lemma category_index_entries_witness :
  no_faults (clean_env []) /\ names_no_nl (clean_env []) /\
  let f := files (snd (main ["qe_apidoc.py"] (clean_env []) fs0)) in
  option_map toc_entries (f !! source_join "markov.rst")
    = Some (toc_names "markov/" (cat_names (clean_env []) "../quantecon/markov")) /\
  option_map toc_entries (f !! source_join "models.rst")
    = Some (toc_names "models/" (cat_names (clean_env []) "../quantecon/models") ++ ["solow/"]) /\
  option_map toc_entries (f !! source_join "random.rst")
    = Some (toc_names "random/" (cat_names (clean_env []) "../quantecon/random")) /\
  option_map toc_entries (f !! source_join "tools.rst")
    = Some (toc_names "tools/" (cat_names (clean_env []) "../quantecon")) /\
  option_map toc_entries (f !! source_join "util.rst")
    = Some (toc_names "util/" (cat_names (clean_env []) "../quantecon/util")) /\
  (cat_names (clean_env []) "../quantecon/markov" = [] ->
   option_map toc_entries (f !! source_join "markov.rst") = Some ["markov/"]).
Proof.
  split; [apply clean_env_no_faults|]. split; [apply names_no_nl_clean_empty|].
  apply (category_index_entries (clean_env []) fs0);
    [apply clean_env_no_faults | apply names_no_nl_clean_empty].
Defined.

Ltac not_util H := rewrite ?append_cons, ?append_nil_l in H; discriminate H.

(** C9. In a world without I/O faults, whose scanned file names hold no
    newline, split mode writes [source/util.rst], while the top-level index
    lists only [markov], [models], [random] and [tools], and no entry of
    any of the six index documents it writes is [util] or [/util]: the util
    category index is referenced by no index document. *)
Theorem util_index_unreferenced (E : env) (s : fs) :
  no_faults E -> names_no_nl E ->
  let f := files (snd (main ["qe_apidoc.py"] E s)) in
  is_Some (f !! source_join "util.rst") /\
  option_map toc_entries (f !! source_join "index.rst")
    = Some ["markov"; "models"; "random"; "tools"] /\
  forall doc d e, In doc ["index"; "markov"; "models"; "random"; "tools"; "util"] ->
    f !! source_join (doc +:+ ".rst") = Some d -> In e (toc_entries d) ->
    e <> "util" /\ e <> "/util".
Proof.
  intros HE Hn f.
  destruct (model_tool_index_entries E s HE Hn) as (H1 & H2 & H3 & H4 & H5 & H6).
  destruct (model_tool_index_docs E s HE) as (_ & _ & _ & _ & _ & D6).
  unfold f. change (main ["qe_apidoc.py"]) with model_tool.
  split; [by rewrite D6|]. split; [done|].
  intros doc d e Hdoc Hd He.
  destruct Hdoc as [<-|[<-|[<-|[<-|[<-|[<-|[]]]]]]];
    [rewrite (Hd : _ !! source_join "index.rst" = _) in H1
    | rewrite (Hd : _ !! source_join "markov.rst" = _) in H2
    | rewrite (Hd : _ !! source_join "models.rst" = _) in H3
    | rewrite (Hd : _ !! source_join "random.rst" = _) in H4
    | rewrite (Hd : _ !! source_join "tools.rst" = _) in H5
    | rewrite (Hd : _ !! source_join "util.rst" = _) in H6];
    cbn [option_map] in *; simplify_eq.
  - rewrite H1 in He. simpl in He. intuition subst; discriminate.
  - rewrite H2 in He. apply toc_names_prefixed in He as [n ->].
    split; intros Heq; not_util Heq.
  - rewrite H3 in He. apply in_app_or in He as [He|[<-|[]]]; [|split; discriminate].
    apply toc_names_prefixed in He as [n ->]. split; intros Heq; not_util Heq.
  - rewrite H4 in He. apply toc_names_prefixed in He as [n ->].
    split; intros Heq; not_util Heq.
  - rewrite H5 in He. apply toc_names_prefixed in He as [n ->].
    split; intros Heq; not_util Heq.
  - rewrite H6 in He. apply toc_names_prefixed in He as [n ->].
    split; intros Heq; not_util Heq.
Qed.

Lemma util_index_unreferenced_witness :
  no_faults (clean_env example_tree) /\ names_no_nl (clean_env example_tree) /\
  let f := files (snd (main ["qe_apidoc.py"] (clean_env example_tree) fs0)) in
  is_Some (f !! source_join "util.rst") /\
  option_map toc_entries (f !! source_join "index.rst")
    = Some ["markov"; "models"; "random"; "tools"] /\
  forall doc d e, In doc ["index"; "markov"; "models"; "random"; "tools"; "util"] ->
    f !! source_join (doc +:+ ".rst") = Some d -> In e (toc_entries d) ->
    e <> "util" /\ e <> "/util".
Proof.
  assert (Hn : names_no_nl (clean_env example_tree)).
  { intros d n Hin. unfold listdir, clean_env, example_tree in Hin. cbn in Hin.
    destruct (String.eqb d "../quantecon/markov"); cbn in Hin.
    - destruct Hin as [<-|[]]. reflexivity.
    - destruct (String.eqb d "../quantecon/models"); cbn in Hin; [|done].
      destruct Hin as [<-|[]]. reflexivity. }
  split; [apply clean_env_no_faults|]. split; [exact Hn|].
  apply (util_index_unreferenced (clean_env example_tree) fs0);
    [apply clean_env_no_faults | exact Hn].
Defined.

(** ** Sorting and stripping the discovered names *)

Definition str_le (a b : string) : Prop := String.leb a b = true.

Lemma string_leb_trans a b c :
  String.leb a b = true -> String.leb b c = true -> String.leb a c = true.
Proof.
  unfold String.leb. revert b c.
  induction a as [|x a IH]; intros [|y b] [|z c]; simpl; try done.
  unfold Ascii.compare.
  destruct (N.compare_spec (Ascii.N_of_ascii x) (Ascii.N_of_ascii y)) as [Hxy|Hxy|Hxy];
  destruct (N.compare_spec (Ascii.N_of_ascii y) (Ascii.N_of_ascii z)) as [Hyz|Hyz|Hyz];
  try done.
  - rewrite Hxy, Hyz, N.compare_refl. apply IH.
  - rewrite Hxy. rewrite (proj2 (N.compare_lt_iff _ _) Hyz). done.
  - rewrite <- Hyz. rewrite (proj2 (N.compare_lt_iff _ _) Hxy). done.
  - rewrite (proj2 (N.compare_lt_iff _ _) (N.lt_trans _ _ _ Hxy Hyz)). done.
Qed.

#[local] Instance str_le_antisymm : AntiSymm (=) str_le.
Proof. intros a b. apply String.leb_antisym. Qed.

Lemma insert_sorted_in x l z : In z (insert_sorted x l) <-> In z (x :: l).
Proof.
  induction l as [|y l IH]; simpl; [tauto|].
  destruct (String.leb x y); simpl; [tauto|]. rewrite IH. simpl. tauto.
Qed.

Lemma insert_sorted_perm x l : insert_sorted x l ≡ₚ x :: l.
Proof.
  induction l as [|y l IH]; simpl; [done|].
  destruct (String.leb x y); [done|]. rewrite IH. constructor.
Qed.

Lemma py_sort_perm l : py_sort l ≡ₚ l.
Proof. induction l as [|x l IH]; simpl; [done|]. by rewrite insert_sorted_perm, IH. Qed.

Lemma insert_sorted_sorted x l :
  StronglySorted str_le l -> StronglySorted str_le (insert_sorted x l).
Proof.
  induction 1 as [|y l Hl IH Hy]; simpl; [by repeat constructor|].
  destruct (String.leb x y) eqn:Hxy.
  - constructor; [by constructor|]. constructor; [done|].
    eapply Forall_impl; [exact Hy|]. intros z Hz. by eapply string_leb_trans.
  - constructor; [done|]. apply Forall_forall. intros z Hz%list_elem_of_In.
    apply insert_sorted_in in Hz as [<-|Hz].
    + destruct (String.leb_total x y) as [H|H]; [congruence|done].
    + rewrite Forall_forall in Hy. apply Hy. by apply list_elem_of_In.
Qed.

Lemma py_sort_sorted l : StronglySorted str_le (py_sort l).
Proof. induction l; simpl; [constructor|]. by apply insert_sorted_sorted. Qed.

(** Sorting forgets the order of its input. *)
Lemma py_sort_perm_eq l1 l2 : l1 ≡ₚ l2 -> py_sort l1 = py_sort l2.
Proof.
  intros Hp. apply (StronglySorted_unique str_le); [apply py_sort_sorted..|].
  by rewrite !py_sort_perm.
Qed.

Lemma py_last_app l1 l2 : l2 <> [] -> py_last (l1 ++ l2) = py_last l2.
Proof.
  intros Hne. unfold py_last. f_equal.
  induction l1 as [|x l1 IH]; [done|]. rewrite <- app_comm_cons, <- IH.
  destruct (l1 ++ l2) eqn:Hl; [|done]. apply app_eq_nil in Hl as [_ ->]. done.
Qed.

Lemma py_last_split_sep c a b :
  has_char c b = false -> py_last (py_split c (a +:+ String c b)) = b.
Proof.
  intros Hb. rewrite py_split_sep_app, py_last_app by apply py_split_not_nil.
  by rewrite py_split_no_char.
Qed.

Lemma substring_split s k :
  (k <= String.length s)%nat ->
  String.substring 0 k s +:+ String.substring k (String.length s - k) s = s.
Proof.
  revert k. induction s as [|c s IH]; intros [|k] Hk; simpl in *; try done.
  - rewrite append_nil_l. f_equal. clear. induction s; simpl; [done|]. by f_equal.
  - rewrite append_cons. f_equal. apply IH. lia.
Qed.

(** A name that passes the glob is its [[:-3]] followed by [.py]. *)
Lemma glob_match_strip n : glob_match n = true -> drop_end 3 n +:+ ".py" = n.
Proof.
  destruct n as [|c r]; [done|]. unfold glob_match, ends_with.
  intros [_ Hr]%andb_prop. apply andb_prop in Hr as [Hle Hs].
  apply Nat.leb_le in Hle. apply String.eqb_eq in Hs. simpl in Hle, Hs.
  unfold drop_end. cbn [String.length].
  replace (S (String.length r) - 3)%nat with (S (String.length r - 3)) by lia.
  cbn [String.substring]. rewrite append_cons. f_equal.
  rewrite <- Hs.
  replace (String.substring (String.length r - 3) 3 r)
    with (String.substring (String.length r - 3) (String.length r - (String.length r - 3)) r)
    by (f_equal; lia).
  apply substring_split. lia.
Qed.

Lemma strip_glob_result E d :
  (forall n, In n (listdir E d) -> has_char "/"%char n = false) ->
  strip_names (glob_result E d) = map (drop_end 3) (filter glob_match (listdir E d)).
Proof.
  intros Hs. unfold strip_names, glob_result. rewrite map_map. apply map_ext_in.
  intros n Hn. f_equal.
  change ("/" +:+ n) with (String "/"%char ("" +:+ n)). rewrite append_nil_l.
  apply py_last_split_sep. apply Hs.
  apply list_elem_of_In in Hn. apply list_elem_of_filter in Hn as [_ Hn].
  by apply list_elem_of_In.
Qed.

Lemma cat_names_perm_eq E E' :
  (forall d, listdir E d ≡ₚ listdir E' d) -> forall d, cat_names E d = cat_names E' d.
Proof.
  intros HP d. unfold cat_names. apply py_sort_perm_eq.
  unfold strip_names, glob_result. apply Permutation_map, Permutation_map.
  by rewrite (HP d).
Qed.

(** The names [model_tool] builds for a category ([x.split('/')[-1][:-3]]
    of the glob, then [sort]): when the directory's entries hold no [/],
    they are sorted, they are the matching entries with their last three
    characters dropped, and each name followed by [.py] is an entry of the
    directory that matches the glob. *)
Theorem cat_names_spec (E : env) (d : string) :
  (forall n, In n (listdir E d) -> has_char "/"%char n = false) ->
  StronglySorted str_le (cat_names E d) /\
  cat_names E d ≡ₚ map (drop_end 3) (filter glob_match (listdir E d)) /\
  (forall n, In n (cat_names E d) ->
     glob_match (n +:+ ".py") = true /\ In (n +:+ ".py") (listdir E d)).
Proof.
  intros Hs. split; [apply py_sort_sorted|].
  assert (Hp : cat_names E d ≡ₚ map (drop_end 3) (filter glob_match (listdir E d))).
  { unfold cat_names. rewrite py_sort_perm. by rewrite strip_glob_result. }
  split; [done|]. intros n Hn.
  apply (Permutation_in _ Hp), in_map_iff in Hn as (m & <- & Hm).
  apply list_elem_of_In, list_elem_of_filter in Hm as [Hg Hm].
  assert (Hg' : glob_match m = true) by (destruct (glob_match m); done).
  rewrite glob_match_strip by done. split; [done|]. by apply list_elem_of_In.
Qed.

Lemma cat_names_spec_witness :
  let E := clean_env [("../quantecon/markov", ["kalman.py"; "ergodicity.py"; "__init__.py"])] in
  (forall n, In n (listdir E "../quantecon/markov") -> has_char "/"%char n = false) /\
  cat_names E "../quantecon/markov" = ["ergodicity"; "kalman"] /\
  StronglySorted str_le (cat_names E "../quantecon/markov").
Proof.
  assert (Hs : forall n, In n (listdir (clean_env [("../quantecon/markov",
            ["kalman.py"; "ergodicity.py"; "__init__.py"])]) "../quantecon/markov") ->
            has_char "/"%char n = false).
  { intros n Hn. vm_compute in Hn.
    destruct Hn as [<-|[<-|[<-|[]]]]; reflexivity. }
  split; [exact Hs|]. split; [vm_compute; reflexivity|].
  exact (proj1 (cat_names_spec _ "../quantecon/markov" Hs)).
Defined.

(** In a world without I/O faults, the files split mode leaves do not
    depend on the order in which the file system lists the scanned
    directories. *)
Theorem split_mode_order_independent (E E' : env) (s : fs) :
  no_faults E -> no_faults E' -> (forall d, listdir E d ≡ₚ listdir E' d) ->
  files (snd (model_tool E s)) = files (snd (model_tool E' s)).
Proof.
  intros HE HE' HP.
  destruct (Det_model_tool E HE s) as [_ ->]. destruct (Det_model_tool E' HE' s) as [_ ->].
  f_equal. unfold model_tool_writes. by rewrite !(cat_names_perm_eq E E' HP).
Qed.

Lemma split_mode_order_independent_witness :
  let E := clean_env [("../quantecon", ["b.py"; "a.py"])] in
  let E' := clean_env [("../quantecon", ["a.py"; "b.py"])] in
  no_faults E /\ no_faults E' /\ (forall d, listdir E d ≡ₚ listdir E' d) /\
  files (snd (model_tool E fs0)) = files (snd (model_tool E' fs0)).
Proof.
  assert (HP : forall d, listdir (clean_env [("../quantecon", ["b.py"; "a.py"])]) d
                         ≡ₚ listdir (clean_env [("../quantecon", ["a.py"; "b.py"])]) d).
  { intros d. unfold listdir, clean_env. cbn.
    destruct (String.eqb d "../quantecon"); cbn; [apply perm_swap|done]. }
  split; [apply clean_env_no_faults|]. split; [apply clean_env_no_faults|].
  split; [exact HP|].
  apply split_mode_order_independent; [apply clean_env_no_faults..|exact HP].
Defined.

(** ** The per-module documents of split mode *)

Lemma py_split_sep_free c s : Forall (fun x => has_char c x = false) (py_split c s).
Proof.
  induction s as [|d s IH]; simpl; [by repeat constructor|].
  destruct (Ascii.eqb d c) eqn:Hd; [by constructor|].
  destruct (py_split c s) as [|x r]; [by repeat constructor; simpl; rewrite Hd|].
  inversion IH; subst. constructor; [|done]. simpl. by rewrite Hd.
Qed.

(** A discovered name holds no [/]: it is the last piece of a split on [/]. *)
Lemma cat_names_no_slash E d : Forall (fun n => has_char "/"%char n = false) (cat_names E d).
Proof.
  unfold cat_names. apply py_sort_forall. unfold strip_names. apply Forall_forall.
  intros x Hx. apply list_elem_of_In, in_map_iff in Hx as (y & <- & _).
  unfold drop_end. apply has_char_substring. apply py_last_forall; [|done].
  apply py_split_sep_free.
Qed.

Lemma append_cancel_l a b c : a +:+ b = a +:+ c -> b = c.
Proof.
  induction a as [|x a IH]; [by rewrite !append_nil_l|].
  rewrite !append_cons. intros [= H]. by apply IH.
Qed.

Lemma append_cancel_r a b c : a +:+ c = b +:+ c -> a = b.
Proof.
  intros H. assert (Hl : String.length a = String.length b).
  { apply (f_equal String.length) in H. rewrite !length_append in H. lia. }
  revert b H Hl. induction a as [|x a IH]; intros [|y b] H Hl; try done.
  rewrite !append_cons in H. injection H as -> H. f_equal. apply IH; [done|].
  simpl in Hl. lia.
Qed.

Lemma last_write_none k ws :
  (forall k' v, In (k', v) ws -> k' <> k) -> last_write k ws = None.
Proof.
  induction ws as [|[k' v] ws IH]; intros H; simpl; [done|].
  rewrite IH by (intros; eapply H; by right).
  destruct (String.eqb_spec k k') as [->|]; [|done].
  exfalso. by apply (H k' v); [left|].
Qed.

Definition module_key (folder : list string) (m : string) : string :=
  os_path_join (["source"] ++ folder ++ [m +:+ ".rst"]).

Lemma module_writes_in folder t mods k v :
  In (k, v) (module_writes folder t mods) -> exists m, In m mods /\ k = module_key folder m.
Proof.
  unfold module_writes. intros Hin. apply in_concat in Hin as (l & Hl & Hin).
  apply in_map_iff in Hl as (m & <- & Hm). exists m. split; [done|].
  destruct Hin as [[= <- _]|[[= <- _]|[]]]; done.
Qed.

Lemma module_key_inj folder m m' :
  folder <> [] -> module_key folder m = module_key folder m' -> m = m'.
Proof.
  intros Hne. unfold module_key. rewrite !module_path_split by done.
  intros H. do 3 apply append_cancel_l in H. by apply append_cancel_r in H.
Qed.

(** The last assignment the loop of a category makes to a module's path. *)
Lemma module_writes_last folder t mods m :
  folder <> [] -> In m mods ->
  last_write (module_key folder m) (module_writes folder t mods)
    = Some (t m (str_repeat "=" (String.length m))).
Proof.
  intros Hne. induction mods as [|x xs IH]; [done|]. intros Hm.
  change (module_writes folder t (x :: xs))
    with ([(module_key folder x, ""); (module_key folder x, t x (str_repeat "=" (String.length x)))]
          ++ module_writes folder t xs).
  destruct (in_dec String.string_dec m xs) as [Hin|Hnin].
  - apply last_write_app_r. by apply IH.
  - destruct Hm as [<-|]; [|done].
    rewrite last_write_app_l.
    + cbn [last_write]. by rewrite String.eqb_refl.
    + apply last_write_none. intros k' v Hk.
      apply module_writes_in in Hk as (m' & Hm' & ->). intros Heq.
      apply module_key_inj in Heq as ->; done.
Qed.

Ltac key_neq :=
  let Heq := fresh in
  intros Heq; apply (f_equal (String.substring 7 7)) in Heq; vm_compute in Heq; discriminate Heq.

Ltac other_piece Hin :=
  first
    [ apply module_writes_in in Hin as (? & _ & ->); unfold module_key; key_neq
    | unfold index_write in Hin; simpl in Hin;
      repeat (destruct Hin as [Hp|Hin]; [injection Hp as <- _; key_neq|]); destruct Hin ].

Ltac later_pieces :=
  apply last_write_none; intros ? ? Hin;
  repeat (apply in_app_or in Hin as [Hin|Hin]; [other_piece Hin|]); other_piece Hin.

(** The categories of split mode: output folder, template, scanned directory. *)
Definition split_module_cats : list (list string * (string -> string -> string) * string) :=
  [(["markov"], markov_module_template, "../quantecon/markov");
   (["models"], model_module_template, "../quantecon/models");
   (["models"; "solow"], solow_model_module_template, "../quantecon/models/solow");
   (["random"], random_module_template, "../quantecon/random");
   (["tools"], module_template, "../quantecon");
   (["util"], util_module_template, "../quantecon/util")].

(** In a world without I/O faults, split mode leaves, for every category
    and every module name it discovers there, the file
    [source/<folder>/<name>.rst] holding the category's template rendered
    with that name and an underline of [len(name)] characters, whatever
    the output tree held before. *)
Theorem split_module_docs (E : env) (s : fs) (folder : list string)
    (tmpl : string -> string -> string) (d m : string) :
  no_faults E -> In (folder, tmpl, d) split_module_cats -> In m (cat_names E d) ->
  files (snd (model_tool E s)) !! module_key folder m
    = Some (tmpl m (str_repeat "=" (String.length m))).
Proof.
  intros HE Hc Hm. destruct (Det_model_tool E HE s) as [_ ->].
  rewrite lookup_apply_writes.
  enough (Hl : last_write (module_key folder m) (model_tool_writes E)
                 = Some (tmpl m (str_repeat "=" (String.length m)))) by (by rewrite Hl).
  unfold model_tool_writes. cbv zeta.
  destruct Hc as [[= <- <- <-]|[[= <- <- <-]|[[= <- <- <-]|[[= <- <- <-]|[[= <- <- <-]|[[= <- <- <-]|[]]]]]]].
  - rewrite last_write_app_l; [by rewrite module_writes_last|].
    later_pieces.
  - apply last_write_app_r. rewrite last_write_app_l; [by rewrite module_writes_last|].
    apply last_write_none. intros k' v Hin.
    apply in_app_or in Hin as [Hin|Hin].
    + apply module_writes_in in Hin as (m' & _ & ->). intros Heq.
      change (module_key ["models"; "solow"] m')
        with ("source/models/" +:+ ("solow/" +:+ (m' +:+ ".rst"))) in Heq.
      change (module_key ["models"] m) with ("source/models/" +:+ (m +:+ ".rst")) in Heq.
      apply append_cancel_l, (f_equal (has_char "/"%char)) in Heq.
      rewrite !has_char_append in Heq. simpl in Heq.
      pose proof (cat_names_no_slash E "../quantecon/models") as Hs.
      rewrite Forall_forall in Hs. rewrite (Hs m) in Heq by (by apply list_elem_of_In).
      discriminate Heq.
    + repeat (apply in_app_or in Hin as [Hin|Hin]; [other_piece Hin|]); other_piece Hin.
  - do 2 apply last_write_app_r. rewrite last_write_app_l; [by rewrite module_writes_last|].
    later_pieces.
  - do 3 apply last_write_app_r. rewrite last_write_app_l; [by rewrite module_writes_last|].
    later_pieces.
  - do 4 apply last_write_app_r. rewrite last_write_app_l; [by rewrite module_writes_last|].
    later_pieces.
  - do 5 apply last_write_app_r. rewrite last_write_app_l; [by rewrite module_writes_last|].
    later_pieces.
Qed.

Lemma split_module_docs_witness :
  no_faults (clean_env example_tree) /\
  In (["markov"], markov_module_template, "../quantecon/markov") split_module_cats /\
  In "ergodicity" (cat_names (clean_env example_tree) "../quantecon/markov") /\
  files (snd (model_tool (clean_env example_tree) fs0)) !! module_key ["markov"] "ergodicity"
    = Some (markov_module_template "ergodicity" (str_repeat "=" (String.length "ergodicity"))).
Proof.
  assert (Hc : In (["markov"], markov_module_template, "../quantecon/markov") split_module_cats)
    by (left; reflexivity).
  assert (Hm : In "ergodicity" (cat_names (clean_env example_tree) "../quantecon/markov"))
    by (vm_compute; left; reflexivity).
  split; [apply clean_env_no_faults|]. split; [exact Hc|]. split; [exact Hm|].
  exact (split_module_docs _ fs0 _ _ _ _ (clean_env_no_faults _) Hc Hm).
Defined.

(** ** Relations every step of the script keeps *)

Definition Pres (R : fs -> fs -> Prop) {A} (m : M A) : Prop :=
  forall E s, R s (snd (m E s)).

Section Preserve.
Variable R : fs -> fs -> Prop.
Hypothesis R_trans : forall s1 s2 s3, R s1 s2 -> R s2 s3 -> R s1 s3.
Hypothesis R_same : forall s s', dirs s' = dirs s -> files s' = files s -> R s s'.

Lemma R_refl s : R s s.
Proof. by apply R_same. Qed.

Lemma R_emit s ev : R s (emit ev s).
Proof. by apply R_same. Qed.

Lemma Pres_ret {A} (a : A) : Pres R (ret a).
Proof using R_trans R_same. intros E s. apply R_refl. Qed.

Lemma Pres_raise {A} e : Pres R (@raise A e).
Proof using R_trans R_same. intros E s. apply R_emit. Qed.

Lemma Pres_bind {A B} (m : M A) (k : A -> M B) :
  Pres R m -> (forall a, Pres R (k a)) -> Pres R (bind m k).
Proof using R_trans R_same.
  intros Hm Hk E s. unfold bind. specialize (Hm E s).
  destruct (m E s) as [[a|e] s1]; simpl in *; [|done].
  eapply R_trans; [exact Hm|]. apply Hk.
Qed.

Lemma Pres_for_each {A} (xs : list A) (body : A -> M unit) :
  (forall x, Pres R (body x)) -> Pres R (for_each xs body).
Proof using R_trans R_same.
  intros Hb. induction xs as [|x xs IH]; simpl; [apply Pres_ret|].
  apply Pres_bind; [apply Hb|done].
Qed.

Lemma Pres_glob d : Pres R (glob d).
Proof using R_trans R_same. intros E s. apply R_refl. Qed.

Lemma Pres_path_exists p : Pres R (path_exists p).
Proof using R_trans R_same. intros E s. apply R_refl. Qed.

Lemma Pres_dict_get d k : Pres R (dict_get d k).
Proof using R_trans R_same.
  induction d as [|[k' v] d IH]; simpl; [apply Pres_raise|].
  destruct (String.eqb k k'); [apply Pres_ret|apply IH].
Qed.

Lemma Pres_makedirs p :
  (forall s, R s (mkFS (list_to_set (ancestors p) ∪ dirs s) (files s) (handles s) (log s))) ->
  Pres R (makedirs p).
Proof using R_trans R_same.
  intros Hd E s. unfold makedirs.
  destruct (_ || _); [apply Pres_raise|]. simpl.
  eapply R_trans; [apply Hd|]. apply R_emit.
Qed.

Lemma Pres_ensure_dir f :
  (forall s, R s (mkFS (list_to_set (ancestors (source_join f)) ∪ dirs s) (files s)
                    (handles s) (log s))) ->
  Pres R (ensure_dir f).
Proof using R_trans R_same.
  intros Hd. apply Pres_bind; [apply Pres_path_exists|].
  intros []; [apply Pres_ret|by apply Pres_makedirs].
Qed.

(** A [with open(p, "w")] block whose body only writes through its handle. *)
Lemma Pres_with_open {A} p (body : string -> M A) :
  (forall s v hs l, R s (mkFS (dirs s) (<[p := v]> (files s)) hs l)) ->
  Pres R (body p) -> Pres R (with_open p body).
Proof using R_trans R_same.
  intros Hp Hb E s. unfold with_open, bind, open_w.
  destruct (open_fails E p); [apply R_emit|].
  match goal with |- context [body p E ?s1] =>
    specialize (Hb E s1); destruct (body p E s1) as [r s2] end.
  simpl. eapply R_trans; [exact (Hp s "" (p :: handles s) (log s ++ [EOpen p]))|].
  eapply R_trans; [exact Hb|]. by apply R_same.
Qed.

Lemma Pres_write p d :
  (forall s v hs l, R s (mkFS (dirs s) (<[p := v]> (files s)) hs l)) ->
  Pres R (write p d).
Proof using R_trans R_same.
  intros Hp E s. unfold write, append_file.
  destruct (write_fault E p); simpl.
  - eapply R_trans; [|apply R_emit]. eapply R_trans; [apply Hp|apply R_emit].
  - eapply R_trans; [apply Hp|apply R_emit].
Qed.
End Preserve.

(** Files outside [P] keep their contents. *)
Definition frame (P : string -> Prop) (s s' : fs) : Prop :=
  forall p, ~ P p -> files s' !! p = files s !! p.

Lemma frame_trans P s1 s2 s3 : frame P s1 s2 -> frame P s2 s3 -> frame P s1 s3.
Proof. intros H1 H2 p Hp. by rewrite H2, H1. Qed.

Lemma frame_same P s s' : dirs s' = dirs s -> files s' = files s -> frame P s s'.
Proof. intros _ Hf p _. by rewrite Hf. Qed.

Lemma frame_insert P p s v dr hs l :
  P p -> frame P s (mkFS dr (<[p := v]> (files s)) hs l).
Proof.
  intros Hp q Hq. simpl. rewrite lookup_insert_ne; [done|]. intros ->. done.
Qed.

Lemma frame_dirs P s dr : frame P s (mkFS dr (files s) (handles s) (log s)).
Proof. by intros q _. Qed.

(** Existing paths stay existing: [os.path.exists] keeps holding. *)
Definition path_in (q : string) (s : fs) : Prop := q ∈ dirs s \/ is_Some (files s !! q).

Definition grows (s s' : fs) : Prop := forall q, path_in q s -> path_in q s'.

Lemma grows_trans s1 s2 s3 : grows s1 s2 -> grows s2 s3 -> grows s1 s3.
Proof. intros H1 H2 q Hq. by apply H2, H1. Qed.

Lemma grows_same s s' : dirs s' = dirs s -> files s' = files s -> grows s s'.
Proof. intros Hd Hf q. unfold path_in. by rewrite Hd, Hf. Qed.

Lemma grows_insert s p v hs l : grows s (mkFS (dirs s) (<[p := v]> (files s)) hs l).
Proof.
  intros q [Hq|Hq]; [by left|right]. simpl.
  destruct (String.eq_dec p q) as [->|Hne].
  - by rewrite lookup_insert_eq.
  - by rewrite lookup_insert_ne.
Qed.

Lemma grows_union s X : grows s (mkFS (X ∪ dirs s) (files s) (handles s) (log s)).
Proof. intros q [Hq|Hq]; [left; simpl; set_solver|by right]. Qed.

(** The same relations, for [grows] and [frame P]. *)
Lemma G_bind {A B} (m : M A) (k : A -> M B) :
  Pres grows m -> (forall a, Pres grows (k a)) -> Pres grows (bind m k).
Proof. apply (Pres_bind grows grows_trans grows_same). Qed.

Lemma G_for_each {A} (xs : list A) (body : A -> M unit) :
  (forall x, Pres grows (body x)) -> Pres grows (for_each xs body).
Proof. apply (Pres_for_each grows grows_trans grows_same). Qed.

Lemma G_glob d : Pres grows (glob d).
Proof. apply (Pres_glob grows grows_trans grows_same). Qed.

Lemma G_ret {A} (a : A) : Pres grows (ret a).
Proof. apply (Pres_ret grows grows_trans grows_same). Qed.

Lemma G_raise {A} e : Pres grows (@raise A e).
Proof. apply (Pres_raise grows grows_trans grows_same). Qed.

Lemma G_dict_get d k : Pres grows (dict_get d k).
Proof. apply (Pres_dict_get grows grows_trans grows_same). Qed.

Lemma G_ensure_dir f : Pres grows (ensure_dir f).
Proof. apply (Pres_ensure_dir grows grows_trans grows_same). intros. apply grows_union. Qed.

Lemma G_with_open {A} p (body : string -> M A) :
  Pres grows (body p) -> Pres grows (with_open p body).
Proof. apply (Pres_with_open grows grows_trans grows_same). intros. apply grows_insert. Qed.

Lemma G_write p d : Pres grows (write p d).
Proof. apply (Pres_write grows grows_trans grows_same). intros. apply grows_insert. Qed.

Ltac grows_tac :=
  repeat (intros; cbv beta zeta;
    first [ apply G_ensure_dir | apply G_with_open | apply G_write | apply G_dict_get
          | apply G_glob | apply G_ret | apply G_raise | apply G_for_each | apply G_bind ]).

Lemma G_model_tool : Pres grows model_tool.
Proof. unfold model_tool, write_modules. grows_tac. Qed.

Lemma G_all_auto : Pres grows all_auto.
Proof. unfold all_auto. grows_tac. Qed.

Lemma F_bind P {A B} (m : M A) (k : A -> M B) :
  Pres (frame P) m -> (forall a, Pres (frame P) (k a)) -> Pres (frame P) (bind m k).
Proof. apply (Pres_bind _ (frame_trans P) (frame_same P)). Qed.

Lemma F_for_each P {A} (xs : list A) (body : A -> M unit) :
  (forall x, In x xs -> Pres (frame P) (body x)) -> Pres (frame P) (for_each xs body).
Proof.
  induction xs as [|x xs IH]; intros Hb; simpl.
  - apply (Pres_ret _ (frame_trans P) (frame_same P)).
  - apply F_bind; [apply Hb; by left|]. intros _. apply IH. intros y Hy. apply Hb. by right.
Qed.

Lemma F_glob P d : Pres (frame P) (glob d).
Proof. apply (Pres_glob _ (frame_trans P) (frame_same P)). Qed.

Lemma F_raise P {A} e : Pres (frame P) (@raise A e).
Proof. apply (Pres_raise _ (frame_trans P) (frame_same P)). Qed.

Lemma F_dict_get P d k : Pres (frame P) (dict_get d k).
Proof. apply (Pres_dict_get _ (frame_trans P) (frame_same P)). Qed.

Lemma F_ensure_dir P f : Pres (frame P) (ensure_dir f).
Proof.
  apply (Pres_ensure_dir _ (frame_trans P) (frame_same P)). intros. apply frame_dirs.
Qed.

Lemma F_with_open P {A} p (body : string -> M A) :
  P p -> Pres (frame P) (body p) -> Pres (frame P) (with_open p body).
Proof.
  intros Hp. apply (Pres_with_open _ (frame_trans P) (frame_same P)). intros. by apply frame_insert.
Qed.

Lemma F_write P p d : P p -> Pres (frame P) (write p d).
Proof.
  intros Hp. apply (Pres_write _ (frame_trans P) (frame_same P)). intros. by apply frame_insert.
Qed.

Lemma F_model_tool : Pres (frame split_open) model_tool.
Proof.
  unfold model_tool.
  do 6 (apply F_bind; [apply F_glob|]; intros ?; cbv beta zeta).
  apply F_bind; [apply F_for_each; intros; apply F_ensure_dir|]. intros _.
  assert (Hw : forall folder t mods, folder <> [] -> In (os_path_join folder) split_categories ->
                 Pres (frame split_open) (write_modules folder t mods)).
  { intros folder t mods Hne Hin. apply F_for_each. intros m _.
    assert (Hp : split_open (os_path_join (["source"] ++ folder ++ [m +:+ ".rst"]))).
    { right. exists (os_path_join folder), (m +:+ ".rst"). split; [done|].
      by apply module_path_split. }
    apply F_with_open; [done|]. by apply F_write. }
  do 6 (apply F_bind; [apply Hw; [done | simpl; tauto] |]; intros _).
  apply F_bind; [apply F_with_open; [left; simpl; tauto|]; apply F_write; left; simpl; tauto|].
  intros _. apply F_for_each. intros f Hf.
  assert (Hp : split_open (source_join (f +:+ ".rst"))).
  { left. apply (in_map (fun f => source_join (f +:+ ".rst"))). simpl in Hf |- *. tauto. }
  apply F_with_open; [done|]. apply F_bind; [apply F_dict_get|]. intros. by apply F_write.
Qed.

Lemma F_all_auto : Pres (frame single_open) all_auto.
Proof.
  unfold all_auto. apply F_bind; [apply F_glob|]. intros names. cbv beta zeta.
  apply F_bind; [apply F_ensure_dir|]. intros _.
  apply F_bind.
  - apply F_for_each. intros x _. apply F_with_open; [|apply F_raise].
    right. eexists. reflexivity.
  - intros _. apply F_with_open; [by left|]. apply F_write. by left.
Qed.

(** Whatever the faults, split mode changes no file outside its output
    paths (the index documents and the files under the six category
    directories), and single mode none outside [source/index.rst] and
    [source/modules/]: in particular neither touches the scanned sources. *)
Theorem outputs_confined (E : env) (s : fs) (p : string) :
  (~ split_open p -> files (snd (model_tool E s)) !! p = files s !! p) /\
  (~ single_open p -> files (snd (all_auto E s)) !! p = files s !! p).
Proof. split; intros Hp; [exact (F_model_tool E s p Hp) | exact (F_all_auto E s p Hp)]. Qed.

Lemma outputs_confined_witness :
  let p := "../quantecon/markov/ergodicity.py" in
  let s := mkFS ∅ {[p := "source code"]} [] [] in
  ~ split_open p /\ ~ single_open p /\
  files (snd (model_tool (clean_env example_tree) s)) !! p = Some "source code".
Proof.
  assert (Hs : ~ split_open "../quantecon/markov/ergodicity.py").
  { intros [Hin|(c & n & _ & Heq)].
    - vm_compute in Hin. repeat (destruct Hin as [Hin|Hin]; [discriminate Hin|]). done.
    - apply (f_equal (String.substring 0 7)) in Heq. vm_compute in Heq. discriminate Heq. }
  assert (Hi : ~ single_open "../quantecon/markov/ergodicity.py").
  { intros [Heq|(n & Heq)]; [vm_compute in Heq; discriminate Heq|].
    apply (f_equal (String.substring 0 7)) in Heq. vm_compute in Heq. discriminate Heq. }
  split; [exact Hs|]. split; [exact Hi|].
  rewrite (proj1 (outputs_confined (clean_env example_tree)
                    (mkFS ∅ {["../quantecon/markov/ergodicity.py" := "source code"]} [] [])
                    "../quantecon/markov/ergodicity.py") Hs).
  apply lookup_insert_eq.
Defined.

(** ** The exceptions each mode can raise *)


Section Raises.
Variable Q : err -> Prop.









End Raises.








(** ** Runs without faults *)

(** A computation that returns normally in every world without faults. *)
Definition Safe {A} (m : M A) : Prop :=
  forall E s, no_faults E -> exists a, fst (m E s) = Ok a.

Lemma Safe_ret {A} (a : A) : Safe (ret a).
Proof. intros E s _. by exists a. Qed.

Lemma Safe_bind {A B} (m : M A) (k : A -> M B) :
  Safe m -> (forall a, Safe (k a)) -> Safe (bind m k).
Proof.
  intros Hm Hk E s HE. unfold bind. destruct (Hm E s HE) as [a Ha].
  destruct (m E s) as [r s1]. simpl in Ha. subst r. by apply Hk.
Qed.

Lemma Safe_for_each {A} (xs : list A) (body : A -> M unit) :
  (forall x, In x xs -> Safe (body x)) -> Safe (for_each xs body).
Proof.
  induction xs as [|x xs IH]; intros Hb; simpl; [apply Safe_ret|].
  apply Safe_bind; [apply Hb; by left|]. intros _. apply IH. intros y Hy. apply Hb. by right.
Qed.

Lemma Safe_glob d : Safe (glob d).
Proof. intros E s _. by eexists. Qed.

(** The [os.path.exists] guard: [ensure_dir] never calls [makedirs] on an
    existing directory, so it does not fail on a rerun. *)
Lemma Safe_ensure_dir f : Safe (ensure_dir f).
Proof.
  intros E s (Hm & _ & _). unfold ensure_dir, bind, path_exists.
  destruct (bool_decide _ || bool_decide _) eqn:Hex; [by eexists|].
  apply orb_false_iff in Hex as [Hd _].
  unfold makedirs. rewrite Hd, Hm. simpl. by eexists.
Qed.

Lemma Safe_with_open {A} p (body : string -> M A) :
  Safe (body p) -> Safe (with_open p body).
Proof.
  intros Hb E s HE. destruct HE as (Hm & Ho & Hw).
  unfold with_open, bind, open_w. rewrite Ho.
  match goal with |- context [body p E ?s1] =>
    destruct (Hb E s1 (conj Hm (conj Ho Hw))) as [a Ha]; destruct (body p E s1) as [r s2] end.
  simpl in *. subst r. by exists a.
Qed.

Lemma Safe_write p d : Safe (write p d).
Proof. intros E s (_ & _ & Hw). unfold write. rewrite Hw. by eexists. Qed.

Lemma Safe_dict_get d k : In k (map fst d) -> Safe (dict_get d k).
Proof.
  induction d as [|[k' v] d IH]; simpl; [done|]. intros Hk.
  destruct (String.eqb_spec k k') as [->|Hne]; [apply Safe_ret|].
  apply IH. destruct Hk as [->|]; [done|done].
Qed.

Lemma Safe_model_tool : Safe model_tool.
Proof.
  unfold model_tool.
  do 6 (apply Safe_bind; [apply Safe_glob|]; intros ?; cbv beta zeta).
  apply Safe_bind; [apply Safe_for_each; intros; apply Safe_ensure_dir|]. intros _.
  assert (Hw : forall folder t mods, Safe (write_modules folder t mods)).
  { intros. apply Safe_for_each. intros. apply Safe_with_open, Safe_write. }
  do 6 (apply Safe_bind; [apply Hw|]; intros _).
  apply Safe_bind; [apply Safe_with_open, Safe_write|]. intros _.
  apply Safe_for_each. intros f Hf. apply Safe_with_open, Safe_bind.
  - apply Safe_dict_get. simpl in Hf |- *. tauto.
  - intros. apply Safe_write.
Qed.

(** A path that exists after every fault-free run of a computation. *)
Definition Est (q : string) {A} (m : M A) : Prop :=
  forall E s, no_faults E -> path_in q (snd (m E s)).

Lemma Est_bind_l q {A B} (m : M A) (k : A -> M B) :
  Est q m -> (forall a, Pres grows (k a)) -> Est q (bind m k).
Proof.
  intros Hm Hk E s HE. specialize (Hm E s HE). unfold bind.
  destruct (m E s) as [[a|e] s1]; simpl in *; [by apply Hk|done].
Qed.

Lemma Est_bind_r q {A B} (m : M A) (k : A -> M B) :
  Safe m -> (forall a, Est q (k a)) -> Est q (bind m k).
Proof.
  intros Hm Hk E s HE. destruct (Hm E s HE) as [a Ha]. unfold bind.
  destruct (m E s) as [r s1]. simpl in Ha. subst r. by apply Hk.
Qed.

Lemma Est_for_each q {A} (xs : list A) (body : A -> M unit) (x0 : A) :
  (forall x, Safe (body x)) -> (forall x, Pres grows (body x)) ->
  In x0 xs -> Est q (body x0) -> Est q (for_each xs body).
Proof.
  intros Hs Hg. induction xs as [|x xs IH]; simpl; [done|]. intros [->|Hin] Hq.
  - apply Est_bind_l; [done|]. intros _. by apply G_for_each.
  - apply Est_bind_r; [done|]. intros _. by apply IH.
Qed.

Lemma Est_ensure_dir f :
  In (source_join f) (ancestors (source_join f)) -> Est (source_join f) (ensure_dir f).
Proof.
  intros Ha E s (Hm & _ & _). unfold ensure_dir, bind, path_exists.
  destruct (bool_decide _ || bool_decide _) eqn:Hex.
  - apply orb_true_iff in Hex as [Hd|Hf]; apply bool_decide_eq_true in Hd || apply bool_decide_eq_true in Hf.
    + by left.
    + by right.
  - apply orb_false_iff in Hex as [Hd _].
    unfold makedirs. rewrite Hd, Hm. cbn [orb snd]. left. cbn [dirs emit].
    apply elem_of_union_l. by apply elem_of_list_to_set, list_elem_of_In.
Qed.

(** In a world without I/O faults, split mode always completes normally,
    whatever the scanned tree and whatever the output tree already holds
    (the [os.path.exists] guard keeps [os.makedirs] from failing on a
    rerun, and the lookup [toc_tree_list[f_name]] always finds its key);
    afterwards each of the six category paths [source/markov],
    [source/models], [source/models/solow], [source/random],
    [source/tools] and [source/util] exists. *)
Theorem split_mode_completes (E : env) (s : fs) :
  no_faults E ->
  fst (model_tool E s) = Ok tt /\
  forall f, In f split_categories -> path_in (source_join f) (snd (model_tool E s)).
Proof.
  intros HE. split.
  - destruct (Safe_model_tool E s HE) as [[] Ha]. exact Ha.
  - intros f Hf. revert E s HE. unfold model_tool.
    do 6 (apply Est_bind_r; [apply Safe_glob|]; intros ?; cbv beta zeta).
    apply Est_bind_l.
    + apply (Est_for_each _ _ _ f); [intros; apply Safe_ensure_dir | intros; apply G_ensure_dir
                                     | exact Hf |].
      apply Est_ensure_dir.
      simpl in Hf. repeat (destruct Hf as [<-|Hf]; [vm_compute; tauto|]). done.
    + intros _. unfold write_modules. grows_tac.
Qed.

Lemma split_mode_completes_witness :
  no_faults (clean_env example_tree) /\
  fst (model_tool (clean_env example_tree) fs0) = Ok tt.
Proof.
  assert (HE : no_faults (clean_env example_tree)) by (repeat split).
  split; [exact HE|].
  exact (proj1 (split_mode_completes (clean_env example_tree) fs0 HE)).
Defined.

Lemma ensure_dir_files f E s : files (snd (ensure_dir f E s)) = files s.
Proof.
  apply map_eq. intros p. exact (F_ensure_dir (fun _ => False) f E s p id).
Qed.

Lemma bind_glob {B} d (k : list string -> M B) E s :
  bind (glob d) k E s = k (glob_result E d) E s.
Proof. reflexivity. Qed.

Lemma bind_ok {A B} (m : M A) (k : A -> M B) E s a s1 :
  m E s = (Ok a, s1) -> bind m k E s = k a E s1.
Proof. intros H. unfold bind. by rewrite H. Qed.

(** In a world without I/O faults, single mode completes normally exactly
    when the scan of [../quantecon] matches no file. In that case it only
    makes sure [source/modules] exists and writes [source/index.rst] as the
    index template rendered with an empty module list, leaving every other
    file as it was. *)
Theorem single_mode_empty_scan (E : env) (s : fs) :
  no_faults E ->
  (fst (all_auto E s) = Ok tt <-> glob_result E "../quantecon" = []) /\
  (glob_result E "../quantecon" = [] ->
   files (snd (all_auto E s)) = <[source_join "index.rst" := all_index_template ""]> (files s) /\
   path_in (source_join "modules") (snd (all_auto E s))).
Proof.
  intros HE. pose proof HE as (Hm & Ho & Hw).
  assert (Hest := Est_ensure_dir "modules" ltac:(vm_compute; tauto) E s HE).
  assert (Hfs := ensure_dir_files "modules" E s).
  destruct (Safe_ensure_dir "modules" E s HE) as [[] Hok].
  destruct (ensure_dir "modules" E s) as [r s1] eqn:Hs1. cbn [fst snd] in *. subst r.
  unfold all_auto. rewrite bind_glob. cbv zeta.
  rewrite (bind_ok _ _ _ _ _ _ Hs1).
  destruct (glob_result E "../quantecon") as [|g gs].
  - cbn [map for_each]. rewrite (bind_ok (ret tt) _ E s1 tt s1 eq_refl).
    unfold with_open, bind, open_w, write. rewrite Ho, Hw. cbn [fst snd].
    change (py_join (nl +:+ "   ") []) with "".
    split; [done|]. intros _. split.
    + cbn [close append_file emit files]. rewrite lookup_insert_eq, insert_insert, Hfs. done.
    + destruct Hest as [Hd|Hf]; [left; exact Hd|right]. cbn [close append_file emit files].
      rewrite !lookup_insert_ne; [exact Hf| vm_compute; congruence | vm_compute; congruence].
  - split; [|done]. split; [|done]. intros Hr. exfalso.
    cbn [map for_each] in Hr.
    unfold with_open, bind, open_w in Hr. rewrite Ho in Hr. cbn in Hr. discriminate Hr.
Qed.

Lemma single_mode_empty_scan_witness :
  let s := mkFS ∅ {["source/index.rst" := "old"]} [] [] in
  no_faults (clean_env []) /\ glob_result (clean_env []) "../quantecon" = [] /\
  files (snd (all_auto (clean_env []) s)) = {["source/index.rst" := all_index_template ""]}.
Proof.
  assert (HE : no_faults (clean_env [])) by (repeat split).
  assert (Hg : glob_result (clean_env []) "../quantecon" = []) by reflexivity.
  split; [exact HE|]. split; [exact Hg|].
  rewrite (proj1 (proj2 (single_mode_empty_scan (clean_env []) (mkFS ∅ {["source/index.rst" := "old"]} [] []) HE) Hg)).
  vm_compute. reflexivity.
Defined.

(** ** Directories a run creates *)

(** Every directory present after the step was present before it or
    satisfies [D]. *)
Definition dnew (D : string -> Prop) (s s' : fs) : Prop :=
  forall d, d ∈ dirs s' -> d ∈ dirs s \/ D d.

Lemma dnew_trans D s1 s2 s3 : dnew D s1 s2 -> dnew D s2 s3 -> dnew D s1 s3.
Proof. intros H1 H2 d Hd. destruct (H2 d Hd) as [H|H]; [by apply H1|by right]. Qed.

Lemma dnew_same D s s' : dirs s' = dirs s -> files s' = files s -> dnew D s s'.
Proof. intros Hd _ d. rewrite Hd. by left. Qed.

Lemma DN_bind D {A B} (m : M A) (k : A -> M B) :
  Pres (dnew D) m -> (forall a, Pres (dnew D) (k a)) -> Pres (dnew D) (bind m k).
Proof. apply (Pres_bind (dnew D) (dnew_trans D) (dnew_same D)). Qed.

Lemma DN_for_each D {A} (xs : list A) (body : A -> M unit) :
  (forall x, In x xs -> Pres (dnew D) (body x)) -> Pres (dnew D) (for_each xs body).
Proof.
  induction xs as [|x xs IH]; intros Hb; simpl.
  - apply (Pres_ret (dnew D) (dnew_trans D) (dnew_same D)).
  - apply DN_bind; [apply Hb; by left|]. intros _. apply IH. intros y Hy. apply Hb. by right.
Qed.

Lemma DN_glob D d : Pres (dnew D) (glob d).
Proof. apply (Pres_glob (dnew D) (dnew_trans D) (dnew_same D)). Qed.

Lemma DN_raise D {A} e : Pres (dnew D) (@raise A e).
Proof. apply (Pres_raise (dnew D) (dnew_trans D) (dnew_same D)). Qed.

Lemma DN_dict_get D d k : Pres (dnew D) (dict_get d k).
Proof. apply (Pres_dict_get (dnew D) (dnew_trans D) (dnew_same D)). Qed.

(** [os.makedirs] creates the missing ancestors of its path as well. *)
Lemma DN_ensure_dir D f :
  (forall x, In x (ancestors (source_join f)) -> D x) -> Pres (dnew D) (ensure_dir f).
Proof.
  intros Ha. apply (Pres_ensure_dir (dnew D) (dnew_trans D) (dnew_same D)).
  intros s d Hd. cbn [dirs] in Hd. apply elem_of_union in Hd as [Hd|Hd]; [right|by left].
  apply Ha. apply list_elem_of_In. by apply elem_of_list_to_set in Hd.
Qed.

Lemma DN_with_open D {A} p (body : string -> M A) :
  Pres (dnew D) (body p) -> Pres (dnew D) (with_open p body).
Proof.
  apply (Pres_with_open (dnew D) (dnew_trans D) (dnew_same D)). intros s v hs l d Hd. by left.
Qed.

Lemma DN_write D p d : Pres (dnew D) (write p d).
Proof.
  apply (Pres_write (dnew D) (dnew_trans D) (dnew_same D)). intros s v hs l x Hx. by left.
Qed.

Definition split_created (d : string) : Prop := d = "source" \/ split_dir d.

Definition single_created (d : string) : Prop := d = "source" \/ single_dir d.

Ltac created_dir :=
  let x := fresh "x" in let Hx := fresh "Hx" in
  intros x Hx; vm_compute in Hx;
  repeat (destruct Hx as [<-|Hx]; [first [left; reflexivity | right; vm_compute; auto 10] |]);
  contradiction.

Lemma DN_model_tool : Pres (dnew split_created) model_tool.
Proof.
  unfold model_tool.
  do 6 (apply DN_bind; [apply DN_glob|]; intros ?; cbv beta zeta).
  apply DN_bind.
  { apply DN_for_each. intros f Hf. apply DN_ensure_dir.
    simpl in Hf. repeat (destruct Hf as [<-|Hf]; [created_dir|]). contradiction. }
  intros _. unfold write_modules.
  repeat (intros; cbv beta zeta;
    first [ apply DN_with_open | apply DN_write | apply DN_dict_get
          | apply DN_for_each | apply DN_bind ]).
Qed.

Lemma DN_all_auto : Pres (dnew single_created) all_auto.
Proof.
  unfold all_auto. apply DN_bind; [apply DN_glob|]. intros names. cbv beta zeta.
  apply DN_bind; [apply DN_ensure_dir; created_dir|]. intros _.
  apply DN_bind.
  - apply DN_for_each. intros x _. apply DN_with_open, DN_raise.
  - intros _. apply DN_with_open, DN_write.
Qed.

Lemma Est_all_auto_modules : Est (source_join "modules") all_auto.
Proof.
  unfold all_auto. apply Est_bind_r; [apply Safe_glob|]. intros names. cbv beta zeta.
  apply Est_bind_l; [apply Est_ensure_dir; vm_compute; tauto|]. grows_tac.
Qed.

Lemma Est_model_tool_dirs f : In f split_categories -> Est (source_join f) model_tool.
Proof.
  intros Hf. unfold model_tool.
  do 6 (apply Est_bind_r; [apply Safe_glob|]; intros ?; cbv beta zeta).
  apply Est_bind_l.
  - apply (Est_for_each _ _ _ f); [intros; apply Safe_ensure_dir | intros; apply G_ensure_dir
                                   | exact Hf |].
    apply Est_ensure_dir.
    simpl in Hf. repeat (destruct Hf as [<-|Hf]; [vm_compute; tauto|]). done.
  - intros _. unfold write_modules. grows_tac.
Qed.

Lemma model_tool_index_docs_present E s f :
  no_faults E -> In f ["index"; "markov"; "models"; "random"; "tools"; "util"] ->
  is_Some (files (snd (model_tool E s)) !! source_join (f +:+ ".rst")).
Proof.
  intros HE Hf. destruct (Det_model_tool E HE s) as [_ ->]. rewrite lookup_apply_writes.
  destruct (model_tool_index_writes E) as (H1 & H2 & H3 & H4 & H5 & H6).
  simpl in Hf. repeat destruct Hf as [<-|Hf]; try contradiction.
  - change (source_join ("index" +:+ ".rst")) with (source_join "index.rst"). by rewrite H1.
  - by rewrite H2.
  - by rewrite H3.
  - by rewrite H4.
  - by rewrite H5.
  - by rewrite H6.
Qed.

(** ** The two output trees (claim C7) *)

(** C7, amended. [["single"]] runs single-index mode, [[]] and [["foo"]]
    split-index mode. Whatever the world, single-index mode opens only
    [source/index.rst] and files under [source/modules/], and the only
    directories it adds are [source/modules] and its parent [source];
    split-index mode opens only [source/index.rst], the five category index
    documents and files under the six category directories, and the only
    directories it adds are those six and [source]. In a world without
    I/O faults, single-index mode leaves [source/modules] in place, and
    split-index mode leaves the six category directories, [source/index.rst]
    and the five category index documents. The only path both modes may
    open is [source/index.rst], and both open it on a tree without
    modules. *)
Theorem mode_outputs :
  main ["qe_apidoc.py"; "single"] = all_auto /\
  main ["qe_apidoc.py"] = model_tool /\ main ["qe_apidoc.py"; "foo"] = model_tool /\
  Events single_open single_dir all_auto /\
  Events split_open split_dir model_tool /\
  (forall E s d, d ∈ dirs (snd (all_auto E s)) -> d ∈ dirs s \/ d = "source" \/ single_dir d) /\
  (forall E s d, d ∈ dirs (snd (model_tool E s)) -> d ∈ dirs s \/ d = "source" \/ split_dir d) /\
  (forall E s, no_faults E -> path_in (source_join "modules") (snd (all_auto E s))) /\
  (forall E s, no_faults E ->
     (forall f, In f split_categories -> path_in (source_join f) (snd (model_tool E s))) /\
     (forall f, In f ["index"; "markov"; "models"; "random"; "tools"; "util"] ->
        is_Some (files (snd (model_tool E s)) !! source_join (f +:+ ".rst")))) /\
  (forall p, single_open p -> split_open p -> p = source_join "index.rst") /\
  In (source_join "index.rst") (opened (log (snd (all_auto (clean_env []) fs0)))) /\
  In (source_join "index.rst") (opened (log (snd (model_tool (clean_env []) fs0)))).
Proof.
  split; [reflexivity|]. split; [reflexivity|]. split; [reflexivity|].
  split; [apply Ev_all_auto|]. split; [apply Ev_model_tool|].
  split; [intros E s d Hd; exact (DN_all_auto E s d Hd)|].
  split; [intros E s d Hd; exact (DN_model_tool E s d Hd)|].
  split; [intros E s HE; exact (Est_all_auto_modules E s HE)|].
  split.
  { intros E s HE. split.
    - intros f Hf. exact (Est_model_tool_dirs f Hf E s HE).
    - intros f Hf. exact (model_tool_index_docs_present E s f HE Hf). }
  split; [apply single_split_overlap|].
  split; vm_compute; tauto.
Qed.

Lemma mode_outputs_witness :
  no_faults (clean_env example_tree) /\
  path_in (source_join "modules") (snd (all_auto (clean_env example_tree) fs0)) /\
  path_in (source_join "models/solow") (snd (model_tool (clean_env example_tree) fs0)).
Proof.
  assert (HE : no_faults (clean_env example_tree)) by (repeat split).
  split; [exact HE|]. split.
  - exact (proj1 (proj2 (proj2 (proj2 (proj2 (proj2 (proj2 (proj2 mode_outputs)))))))
             (clean_env example_tree) fs0 HE).
  - apply (proj1 (proj1 (proj2 (proj2 (proj2 (proj2 (proj2 (proj2 (proj2 (proj2 mode_outputs))))))))
                    (clean_env example_tree) fs0 HE)).
    simpl. tauto.
Defined.

(** ** Scan errors (claim C10) *)

(** Python 2's [glob.glob1(dirname, pattern)]:
    [try: names = os.listdir(dirname) except os.error: return []].
    A listing oracle [ls] answers [None] where [os.listdir] raises; the
    script then sees an empty directory. *)
Definition listdir_py2 (ls : string -> option (list string)) (d : string) : list string :=
  match ls d with
  | Some names => names
  | None => []
  end.

(** A world whose only failures are those of [os.listdir]. *)
Definition scan_env (ls : string -> option (list string)) : env :=
  mkEnv (listdir_py2 ls) (fun _ => false) (fun _ => false) (fun _ => None).

(** The listing oracle of a tree where [os.listdir] raises on [bad]. *)
Definition ls_failing (bad : string) (tree : list (string * list string))
  : string -> option (list string) :=
  fun d => if String.eqb d bad then None else Some (listdir (clean_env tree) d).

Lemma scan_env_no_faults ls : no_faults (scan_env ls).
Proof. repeat split. Qed.

Lemma all_auto_empty_ok E s :
  no_faults E -> glob_result E "../quantecon" = [] -> fst (all_auto E s) = Ok tt.
Proof.
  intros HE Hg. pose proof HE as (Hm & Ho & Hw).
  destruct (Safe_ensure_dir "modules" E s HE) as [[] Hok].
  destruct (ensure_dir "modules" E s) as [r s1] eqn:Hs1. cbn [fst] in Hok. subst r.
  unfold all_auto. rewrite bind_glob, Hg. cbv zeta.
  rewrite (bind_ok _ _ _ _ _ _ Hs1). cbn [map for_each].
  rewrite (bind_ok (ret tt) _ E s1 tt s1 eq_refl).
  unfold with_open, bind, open_w, write. rewrite Ho, Hw. reflexivity.
Qed.

(** C10, as the spec states it: errors of the directory scan propagate as
    fatal errors. They do not: [os.listdir] raising on
    [../quantecon/markov] in split mode, or on [../quantecon] in single
    mode, is caught by [glob], and the run returns normally. *)
Lemma scan_error_not_fatal :
  fst (main ["qe_apidoc.py"] (scan_env (ls_failing "../quantecon/markov" example_tree)) fs0)
    = Ok tt /\
  fst (main ["qe_apidoc.py"; "single"] (scan_env (ls_failing "../quantecon" example_tree)) fs0)
    = Ok tt.
Proof. split; vm_compute; reflexivity. Qed.

(** C10, amended. Whatever the faults of the world, a run of the script in
    either mode leaves open exactly the handles that were open before
    (every handle it opens is released, also when a write fails), and its
    events contain no exception if it returned, otherwise the one exception
    it returns, followed only by the release of handles: no retry, no
    further directory, open or write. A [with open(p, "w")] block replaces
    the content of [p] by what it writes (truncation), the bytes before the
    fault if the write fails. An error of [os.listdir] during a scan is
    not fatal: [glob] returns no match for that directory, so split mode
    returns normally whatever scans fail, and single mode does when the
    scan of [../quantecon] fails. *)
Theorem run_fatal_errors (E : env) (argv : list string) (s : fs) :
  (let '(r, s') := main argv E s in
   handles s' = handles s /\ exists l, log s' = log s ++ l /\ raise_shape r l) /\
  (forall (p d : string) (s0 : fs),
     let s1 := snd (with_open p (fun f => write f d) E s0) in
     if open_fails E p then files s1 = files s0
     else files s1 !! p = Some (match write_fault E p with
                                | None => d
                                | Some n => String.substring 0 n d
                                end)) /\
  (forall (ls : string -> option (list string)) (d : string) (s0 : fs),
     ls d = None ->
     glob_result (scan_env ls) d = [] /\
     fst (model_tool (scan_env ls) s0) = Ok tt /\
     (d = "../quantecon" -> fst (all_auto (scan_env ls) s0) = Ok tt)).
Proof.
  split; [apply WB_main|]. split.
  - intros p d s0 s1. subst s1.
    unfold with_open, bind, open_w.
    destruct (open_fails E p); [done|].
    unfold write. destruct (write_fault E p) as [n|]; simpl;
      rewrite lookup_insert_eq; simpl; rewrite lookup_insert_eq; done.
  - intros ls d s0 Hd.
    assert (Hg : glob_result (scan_env ls) d = []).
    { unfold glob_result. cbn [listdir scan_env]. unfold listdir_py2. by rewrite Hd. }
    split; [exact Hg|]. split.
    + destruct (Safe_model_tool (scan_env ls) s0 (scan_env_no_faults ls)) as [[] Ha]. exact Ha.
    + intros ->. by apply all_auto_empty_ok; [apply scan_env_no_faults|].
Qed.

Lemma run_fatal_errors_witness :
  ls_failing "../quantecon" example_tree "../quantecon" = None /\
  fst (all_auto (scan_env (ls_failing "../quantecon" example_tree)) fs0) = Ok tt.
Proof.
  assert (Hd : ls_failing "../quantecon" example_tree "../quantecon" = None) by reflexivity.
  split; [exact Hd|].
  destruct (run_fatal_errors (clean_env []) [] fs0) as (_ & _ & H3).
  exact (proj2 (proj2 (H3 (ls_failing "../quantecon" example_tree) "../quantecon" fs0 Hd)) eq_refl).
Defined.
